(** * django-cumulus: the Cloud Files storage adapter and its file handle

    A shallow embedding of [cumulus/storage.py].  The adapter
    ([CloudFilesStorage]) and the file handle ([CloudFilesStorageFile]) are
    Python objects whose attributes appear lazily ([hasattr] tests); they are
    records with optional fields here.  Every method runs in a small
    state-and-exception monad over the Python objects and the remote
    service, so that an exception leaves behind the mutations that
    preceded it, as in Python. *)

From stdpp Require Import gmap strings list fin_maps sorting.
From Stdlib Require Import ZArith Lia.
From Stdlib.Strings Require Import Ascii String Byte.

Open Scope string_scope.
Open Scope Z_scope.

(** ** Python strings *)

Module Py.

Definition len (s : string) : Z := Z.of_nat (String.length s).

Fixpoint drop (n : nat) (s : string) : string :=
  match n, s with
  | O, _ => s
  | S _, EmptyString => EmptyString
  | S n', String _ s' => drop n' s'
  end.

Fixpoint take (n : nat) (s : string) : string :=
  match n, s with
  | O, _ => EmptyString
  | S _, EmptyString => EmptyString
  | S n', String a s' => String a (take n' s')
  end.

(** A slice bound [i] of a sequence of length [n]: negative bounds count
    from the end, and every bound is clipped into [0 .. n]. *)
Definition clip (n i : Z) : Z :=
  if i <? 0 then Z.max 0 (n + i) else Z.min i n.

(** [s[lo:hi]]; an omitted bound is [None]. *)
Definition slice (s : string) (lo hi : option Z) : string :=
  let n := len s in
  let l := match lo with Some i => clip n i | None => 0 end in
  let h := match hi with Some i => clip n i | None => n end in
  take (Z.to_nat (h - l)) (drop (Z.to_nat l) s).

(** [s.find(c)] for a one-character needle: the least index, or [-1]. *)
Fixpoint find (c : ascii) (s : string) : Z :=
  match s with
  | EmptyString => -1
  | String a s' =>
      if Ascii.eqb a c then 0
      else let r := find c s' in if r <? 0 then -1 else r + 1
  end.

(** [s.endswith(c)] for a one-character suffix. *)
Fixpoint endswith (s : string) (c : ascii) : bool :=
  match s with
  | EmptyString => false
  | String a EmptyString => Ascii.eqb a c
  | String _ s' => endswith s' c
  end.

(** Truth value of a string: the empty string is falsy. *)
Definition truthy (s : string) : bool :=
  match s with EmptyString => false | String _ _ => true end.

(** [s[i]] as an option, used to state properties of positions. *)
Fixpoint get (i : nat) (s : string) {struct s} : option ascii :=
  match s, i with
  | EmptyString, _ => None
  | String a _, O => Some a
  | String _ s', S i' => get i' s'
  end.

End Py.

Definition SLASH : ascii := "/"%char.

(** ** Exceptions and results *)

(** The exception classes of the client library that the adapter tells
    apart, all siblings under the library's base error. *)
Inductive exn : Type :=
| ResponseError (status : Z) (reason : string)
| NoSuchObject
| NoSuchContainer
| ContainerNotPublic
| AuthenticationFailed.

Inductive result (A : Type) : Type :=
| Ok (a : A)
| Raise (x : exn).
Arguments Ok {A} a.
Arguments Raise {A} x.

(** ** The remote service and the client's objects *)

Record CloudObject := mkCloudObject {
  o_data : list byte;
  o_content_type : option string
}.

(** A container of the service.  [c_objects] is kept in the order in which
    the service lists the objects. *)
Record Container := mkContainer {
  c_public : bool;
  c_uri : string;
  c_objects : list (string * CloudObject)
}.

(** The client-side object handle returned by [get_object] and
    [create_object]: it names its container and carries the attributes
    read when it was fetched. *)
Record CloudRef := mkCloudRef {
  ref_container : string;
  ref_name : string;
  ref_size : Z;
  ref_content_type : option string
}.

(** Calls observed at the boundary: the requests sent to the service, and
    each entry into the adapter's [size] operation (what a call-counting
    transport double records). *)
Inductive call : Type :=
| CallConnect
| CallGetContainer (c : string)
| CallMakePublic (c : string)
| CallGetObject (c n : string)
| CallDeleteObject (c n : string)
| CallListObjects (c p : string)
| CallRead (c n : string) (size offset : Z)
| CallSend (c n : string)
| CallSize (n : string).

(** The service: its containers by name, the faults it will answer with
    (one entry per request still to come, [Some x] making that request
    raise [x]), and the calls seen so far, newest first. *)
Record Remote := mkRemote {
  containers : gmap string Container;
  faults : list (option exn);
  calls : list call
}.

Inductive Connection : Type := TheConnection.

(** [CloudFilesStorage]: an absent attribute is [None]. *)
Record Storage := mkStorage {
  container_name : string;
  _connection : option Connection;
  _container : option string;
  _container_public_uri : option string
}.

(** [CloudFilesStorageFile]. *)
Record StorageFile := mkStorageFile {
  name : string;
  _pos : Z;
  _size : option Z;
  _file : option CloudRef
}.

(** Everything a method can touch: the service, the adapter, and the file
    handle in use (which refers to the adapter through [_storage]). *)
Record Env := mkEnv {
  remote : Remote;
  storage : Storage;
  handle : StorageFile
}.

Definition with_remote (r : Remote) (e : Env) : Env :=
  mkEnv r (storage e) (handle e).
Definition with_storage (s : Storage) (e : Env) : Env :=
  mkEnv (remote e) s (handle e).
Definition with_handle (h : StorageFile) (e : Env) : Env :=
  mkEnv (remote e) (storage e) h.

Definition set_containers (m : gmap string Container) (r : Remote) : Remote :=
  mkRemote m (faults r) (calls r).
Definition set_faults (f : list (option exn)) (r : Remote) : Remote :=
  mkRemote (containers r) f (calls r).
Definition log_call (c : call) (r : Remote) : Remote :=
  mkRemote (containers r) (faults r) (c :: calls r).

Definition set_connection (v : option Connection) (s : Storage) : Storage :=
  mkStorage (container_name s) v (_container s) (_container_public_uri s).
Definition set_container (v : option string) (s : Storage) : Storage :=
  mkStorage (container_name s) (_connection s) v (_container_public_uri s).
Definition set_container_public_uri (v : option string) (s : Storage) : Storage :=
  mkStorage (container_name s) (_connection s) (_container s) v.

Definition set_pos (p : Z) (h : StorageFile) : StorageFile :=
  mkStorageFile (name h) p (_size h) (_file h).
Definition set_size (v : option Z) (h : StorageFile) : StorageFile :=
  mkStorageFile (name h) (_pos h) v (_file h).
Definition set_file (v : option CloudRef) (h : StorageFile) : StorageFile :=
  mkStorageFile (name h) (_pos h) (_size h) v.

(** ** The monad of methods *)

Definition M (A : Type) : Type := Env -> result A * Env.

Definition ret {A} (a : A) : M A := fun e => (Ok a, e).

Definition bind {A B} (m : M A) (f : A -> M B) : M B :=
  fun e =>
    match m e with
    | (Ok a, e') => f a e'
    | (Raise x, e') => (Raise x, e')
    end.

Definition raise {A} (x : exn) : M A := fun e => (Raise x, e).

(** [try: body except ...]: [handler x] is [None] when no clause matches
    [x], which then propagates. *)
Definition try_except {A} (body : M A) (handler : exn -> option (M A)) : M A :=
  fun e =>
    match body e with
    | (Raise x, e') =>
        match handler x with
        | Some h => h e'
        | None => (Raise x, e')
        end
    | r => r
    end.

Definition get_env : M Env := fun e => (Ok e, e).
Definition modify (f : Env -> Env) : M unit := fun e => (Ok tt, f e).

Declare Scope monad_scope.
Delimit Scope monad_scope with monad.
Notation "x <- m ;; k" := (bind m (fun x => k))
  (at level 100, m at next level, right associativity) : monad_scope.
Notation "m ;;; k" := (bind m (fun _ => k))
  (at level 100, right associativity) : monad_scope.
Open Scope monad_scope.

Definition get_storage : M Storage := e <- get_env ;; ret (storage e).
Definition get_handle : M StorageFile := e <- get_env ;; ret (handle e).
Definition modify_storage (f : Storage -> Storage) : M unit :=
  modify (fun e => with_storage (f (storage e)) e).
Definition modify_handle (f : StorageFile -> StorageFile) : M unit :=
  modify (fun e => with_handle (f (handle e)) e).
Definition modify_remote (f : Remote -> Remote) : M unit :=
  modify (fun e => with_remote (f (remote e)) e).

(** A request to the service: it is logged, then the next scheduled fault,
    if any, is raised in place of the answer. *)
Definition request {A} (c : call) (answer : M A) : M A :=
  modify_remote (log_call c) ;;;
  e <- get_env ;;
  match faults (remote e) with
  | [] => answer
  | None :: fs => modify_remote (set_faults fs) ;;; answer
  | Some x :: fs => modify_remote (set_faults fs) ;;; raise x
  end.

(** ** The client library, as the adapter uses it *)

(** [cloudfiles] is a third-party package: the adapter only calls it.  The
    module below is its contract as the adapter relies on it and as the
    specification describes the service: containers hold named objects,
    a missing object answers [NoSuchObject] to a fetch and a response
    error of status 404 to a delete, a listing gives the names under a
    prefix, and a read gives the bytes from an offset. *)
Module cloudfiles.

Definition lookup_object (n : string) (C : Container) : option CloudObject :=
  snd <$> List.find (fun p => String.eqb (fst p) n) (c_objects C).

Definition remove_object (n : string) (C : Container) : Container :=
  mkContainer (c_public C) (c_uri C)
    (List.filter (fun p => negb (String.eqb (fst p) n)) (c_objects C)).

Fixpoint put_assoc (n : string) (o : CloudObject)
    (l : list (string * CloudObject)) : list (string * CloudObject) :=
  match l with
  | [] => [(n, o)]
  | (n', o') :: l' =>
      if String.eqb n' n then (n, o) :: l' else (n', o') :: put_assoc n o l'
  end.

Definition put_object (n : string) (o : CloudObject) (C : Container) : Container :=
  mkContainer (c_public C) (c_uri C) (put_assoc n o (c_objects C)).

Definition get_connection : M Connection :=
  request CallConnect (ret TheConnection).

Definition get_container (conn : Connection) (cname : string) : M string :=
  request (CallGetContainer cname)
    (e <- get_env ;;
     match containers (remote e) !! cname with
     | Some _ => ret cname
     | None => raise NoSuchContainer
     end).

(** The container object behind a handle; a handle to nothing answers
    like a container that is gone. *)
Definition deref (c : string) : M Container :=
  e <- get_env ;;
  match containers (remote e) !! c with
  | Some C => ret C
  | None => raise NoSuchContainer
  end.

Definition is_public (c : string) : M bool :=
  C <- deref c ;; ret (c_public C).

Definition make_public (c : string) : M unit :=
  request (CallMakePublic c)
    (C <- deref c ;;
     modify_remote (fun r =>
       set_containers
         (<[c := mkContainer true (c_uri C) (c_objects C)]> (containers r)) r)).

Definition public_uri (c : string) : M string :=
  C <- deref c ;;
  if c_public C then ret (c_uri C) else raise ContainerNotPublic.

Definition get_object (c n : string) : M CloudRef :=
  request (CallGetObject c n)
    (C <- deref c ;;
     match lookup_object n C with
     | Some o =>
         ret (mkCloudRef c n (Z.of_nat (List.length (o_data o))) (o_content_type o))
     | None => raise NoSuchObject
     end).

Definition create_object (c n : string) : CloudRef :=
  mkCloudRef c n 0 None.

Definition delete_object (c n : string) : M unit :=
  request (CallDeleteObject c n)
    (C <- deref c ;;
     match lookup_object n C with
     | Some _ =>
         modify_remote (fun r =>
           set_containers (<[c := remove_object n C]> (containers r)) r)
     | None => raise (ResponseError 404 "Not Found")
     end).

(** The names under a prefix, in the service's listing order.  The
    adapter asks once with [prefix=] and once with [path=]; both are
    taken to list every object whose name starts with the argument. *)
Definition list_objects (c p : string) : M (list string) :=
  request (CallListObjects c p)
    (C <- deref c ;;
     ret (List.filter (String.prefix p) (List.map fst (c_objects C)))).

(** [obj.read(size, offset)]: [size] bytes from [offset] when [size] is
    positive, else everything from [offset] on. *)
Definition read_range (data : list byte) (size offset : Z) : list byte :=
  let rest := List.skipn (Z.to_nat offset) data in
  if 0 <? size then List.firstn (Z.to_nat size) rest else rest.

Definition read (o : CloudRef) (size offset : Z) : M (list byte) :=
  request (CallRead (ref_container o) (ref_name o) size offset)
    (C <- deref (ref_container o) ;;
     match lookup_object (ref_name o) C with
     | Some obj => ret (read_range (o_data obj) size offset)
     | None => raise (ResponseError 404 "Not Found")
     end).

Definition send (o : CloudRef) (data : list byte) : M unit :=
  request (CallSend (ref_container o) (ref_name o))
    (C <- deref (ref_container o) ;;
     modify_remote (fun r =>
       set_containers
         (<[ref_container o :=
              put_object (ref_name o) (mkCloudObject data (ref_content_type o)) C]>
            (containers r)) r)).

End cloudfiles.

(** ** [CloudFilesStorage] *)

(** Lexicographic order on byte strings, the order of [list.sort] on [str]. *)
Definition str_le (a b : string) : Prop := String.leb a b = true.

#[global] Instance str_le_dec (a b : string) : Decision (str_le a b).
Proof. unfold str_le. apply _. Defined.

(** The content object handed to [_save]: its bytes, and the optional
    attributes [_save] probes with [hasattr]. *)
Record Content := mkContent {
  content_data : list byte;
  content_file_size : option Z;
  content_size : Z;
  content_file_content_type : option string;
  content_content_type : option string
}.

Section Adapter.

(** The settings dictionary [CUMULUS] lives in the settings module; the
    adapter reads the default container name and the alias table
    [CUMULUS['CNAMES']] from it (an unset or empty table is the empty
    map).  [guess_type] is [mimetypes.guess_type], first component. *)
Variable CUMULUS_CONTAINER : string.
Variable CNAMES : gmap string string.
Variable guess_type : string -> option string.

(** [__init__], as far as the container name goes:
    [container or CUMULUS['CONTAINER']]. *)
Definition init (container : option string) : Storage :=
  let cname :=
    match container with
    | Some c => if Py.truthy c then c else CUMULUS_CONTAINER
    | None => CUMULUS_CONTAINER
    end in
  mkStorage cname None None None.

Definition _get_connection : M Connection :=
  s <- get_storage ;;
  match _connection s with
  | Some conn => ret conn
  | None =>
      conn <- cloudfiles.get_connection ;;
      modify_storage (set_connection (Some conn)) ;;;
      ret conn
  end.

Definition _set_connection (value : Connection) : M unit :=
  modify_storage (set_connection (Some value)).

Definition _set_container (container : string) : M unit :=
  pub <- cloudfiles.is_public container ;;
  (if negb pub then cloudfiles.make_public container else ret tt) ;;;
  modify_storage (set_container_public_uri None) ;;;
  modify_storage (set_container (Some container)).

(** The getter returns [self._container], which the setter has just
    bound to the fetched container when it was absent. *)
Definition _get_container : M string :=
  s <- get_storage ;;
  match _container s with
  | Some c => ret c
  | None =>
      conn <- _get_connection ;;
      c <- cloudfiles.get_container conn (container_name s) ;;
      _set_container c ;;;
      ret c
  end.

(** [CUMULUS['CNAMES'] and uri in CUMULUS['CNAMES']] is a lookup in the
    table: an unset or empty table holds no address. *)
Definition _get_container_url : M string :=
  s <- get_storage ;;
  u <- match _container_public_uri s with
       | Some u => ret u
       | None =>
           c <- _get_container ;;
           u <- cloudfiles.public_uri c ;;
           modify_storage (set_container_public_uri (Some u)) ;;;
           ret u
       end ;;
  match CNAMES !! u with
  | Some alias =>
      modify_storage (set_container_public_uri (Some alias)) ;;;
      ret alias
  | None => ret u
  end.

Definition _get_cloud_obj (name : string) : M CloudRef :=
  c <- _get_container ;;
  cloudfiles.get_object c name.

(** [_open] builds a handle: cursor 0, no size, no bound object. *)
Definition new_file (name : string) : StorageFile :=
  mkStorageFile name 0 None None.

Definition _open (name : string) : M unit :=
  modify_handle (fun _ => new_file name).

(** [content.open()] and [content.close()] act on the caller's content
    object only. *)
Definition _save (name : string) (content : Content) : M string :=
  c <- _get_container ;;
  let cloud_obj := cloudfiles.create_object c name in
  let size :=
    match content_file_size content with
    | Some n => n
    | None => content_size content
    end in
  let content_type :=
    match content_file_content_type content with
    | Some t => Some t
    | None =>
        match content_content_type content with
        | Some t => Some t
        | None => guess_type name
        end
    end in
  let cloud_obj := mkCloudRef (ref_container cloud_obj) (ref_name cloud_obj)
                     size content_type in
  cloudfiles.send cloud_obj (content_data content) ;;;
  ret name.

Definition delete (name : string) : M unit :=
  try_except
    (c <- _get_container ;; cloudfiles.delete_object c name)
    (fun exc =>
       match exc with
       | ResponseError status _ =>
           Some (if status =? 404 then ret tt else raise exc)
       | _ => None
       end).

Definition exists_ (name : string) : M bool :=
  try_except
    (_get_cloud_obj name ;;; ret true)
    (fun exc =>
       match exc with
       | NoSuchObject => Some (ret false)
       | _ => None
       end).

(** [if path and not path.endswith('/'): path = '%s/' % path] *)
Definition normalize (path : string) : string :=
  if Py.truthy path && negb (Py.endswith path SLASH)
  then path ++ "/" else path.

Definition listdir (path : string) : M (list string * list string) :=
  let path := normalize path in
  let path_len := Py.len path in
  c <- _get_container ;;
  names <- cloudfiles.list_objects c path ;;
  ret ([], List.map (fun name => Py.slice name (Some path_len) None) names).

(** One turn of the loop of [full_listdir] on the pair [(dirs, files)]. *)
Definition full_listdir_step (path_len : Z)
    (acc : gset string * list string) (name : string)
    : gset string * list string :=
  let name := Py.slice name (Some path_len) None in
  let slash := Py.find SLASH (Py.slice name (Some 1) (Some (-1))) + 1 in
  if negb (slash =? 0) then
    ({[ Py.slice name None (Some slash) ]} ∪ fst acc, snd acc)
  else if Py.truthy name then
    (fst acc, (snd acc ++ [name])%list)
  else acc.

Definition full_listdir (path : string) : M (list string * list string) :=
  let path := normalize path in
  let path_len := Py.len path in
  c <- _get_container ;;
  names <- cloudfiles.list_objects c path ;;
  let '(dirs, files) :=
    List.fold_left (full_listdir_step path_len) names (∅, []) in
  ret (merge_sort str_le (elements dirs), files).

(** The first line records the entry into [size] in the log of calls. *)
Definition size (name : string) : M Z :=
  modify_remote (log_call (CallSize name)) ;;;
  o <- _get_cloud_obj name ;;
  ret (ref_size o).

Definition url (name : string) : M string :=
  base <- _get_container_url ;;
  ret (base ++ "/" ++ name).

(** ** [CloudFilesStorageFile] *)

Definition _get_pos : M Z := h <- get_handle ;; ret (_pos h).

Definition _get_size : M Z :=
  h <- get_handle ;;
  match _size h with
  | Some v => ret v
  | None =>
      v <- size (name h) ;;
      modify_handle (set_size (Some v)) ;;;
      ret v
  end.

Definition _set_size (size : Z) : M unit :=
  modify_handle (set_size (Some size)).

Definition _get_file : M CloudRef :=
  h <- get_handle ;;
  match _file h with
  | Some f => ret f
  | None =>
      f <- _get_cloud_obj (name h) ;;
      modify_handle (set_file (Some f)) ;;;
      ret f
  end.

(** Assigning [None] detaches the bound object, if any. *)
Definition _set_file (value : option CloudRef) : M unit :=
  match value with
  | None => modify_handle (set_file None)
  | Some f => modify_handle (set_file (Some f))
  end.

(** [num_bytes or -1]: [None] and [0] are falsy. *)
Definition or_minus_one (num_bytes : option Z) : Z :=
  match num_bytes with
  | Some n => if n =? 0 then -1 else n
  | None => -1
  end.

Definition read (num_bytes : option Z) : M (list byte) :=
  f <- _get_file ;;
  h <- get_handle ;;
  data <- cloudfiles.read f (or_minus_one num_bytes) (_pos h) ;;
  modify_handle (fun h => set_pos (_pos h + Z.of_nat (List.length data)) h) ;;;
  ret data.

Definition open : M unit := modify_handle (set_pos 0).

Definition close : M unit := modify_handle (set_pos 0).

Definition closed (h : StorageFile) : bool :=
  match _file h with Some _ => false | None => true end.

Definition seek (pos : Z) : M unit := modify_handle (set_pos pos).

(** ** Programs over the two objects *)

Inductive op : Type :=
| SetConnection (value : Connection)
| GetConnection
| SetContainer (container : string)
| GetContainer
| GetContainerUrl
| Open_ (name : string)
| Save (name : string) (content : Content)
| Delete (name : string)
| Exists (name : string)
| Listdir (path : string)
| FullListdir (path : string)
| Size (name : string)
| Url (name : string)
| FGetSize
| FSetSize (size : Z)
| FGetFile
| FSetFile (value : option CloudRef)
| FRead (num_bytes : option Z)
| FOpen
| FClose
| FSeek (pos : Z).

Definition void {A} (m : M A) : M unit := m ;;; ret tt.

Definition op_sem (o : op) : M unit :=
  match o with
  | SetConnection v => _set_connection v
  | GetConnection => void _get_connection
  | SetContainer c => _set_container c
  | GetContainer => void _get_container
  | GetContainerUrl => void _get_container_url
  | Open_ n => _open n
  | Save n c => void (_save n c)
  | Delete n => delete n
  | Exists n => void (exists_ n)
  | Listdir p => void (listdir p)
  | FullListdir p => void (full_listdir p)
  | Size n => void (size n)
  | Url n => void (url n)
  | FGetSize => void _get_size
  | FSetSize v => _set_size v
  | FGetFile => void _get_file
  | FSetFile v => _set_file v
  | FRead n => void (read n)
  | FOpen => open
  | FClose => close
  | FSeek p => seek p
  end.

(** Running a program: a step that raises is caught by the caller, and
    the next step runs on whatever state it left. *)
Definition step (e : Env) (o : op) : Env := snd (op_sem o e).

Definition exec (ops : list op) (e : Env) : Env := List.fold_left step ops e.

(** A newly built adapter with a newly opened handle, over any service. *)
Definition fresh (container : option string) (file_name : string)
    (r : Remote) : Env :=
  mkEnv r (init container) (new_file file_name).

Definition reachable (e : Env) : Prop :=
  exists container file_name r ops,
    e = exec ops (fresh container file_name r).

End Adapter.

(** ** Vocabulary of the statements *)

(** The name has no [/] strictly after its first and strictly before its
    last character. *)
Definition no_inner_slash (r : string) : Prop :=
  forall i : nat, (0 < i)%nat -> (S i < String.length r)%nat ->
    Py.get i r <> Some SLASH.

(** The container the adapter works on in state [e]: the bound one, or
    else the one its configured name designates. *)
Definition target (e : Env) : string :=
  match _container (storage e) with
  | Some c => c
  | None => container_name (storage e)
  end.

(** The service answers every request (no fault is scheduled) and the
    adapter's container is [C]. *)
Definition serving (e : Env) (C : Container) : Prop :=
  faults (remote e) = [] /\ containers (remote e) !! target e = Some C.

Definition names_of (C : Container) : list string := List.map fst (c_objects C).

(** The service answers every request and the object the handle stands
    for (the bound one, or else the one its name designates in the
    adapter's container) holds [data]. *)
Definition reads (e : Env) (data : list byte) : Prop :=
  faults (remote e) = [] /\
  exists C obj,
    containers (remote e) !!
      match _file (handle e) with
      | Some f => ref_container f
      | None => target e
      end = Some C /\
    cloudfiles.lookup_object
      match _file (handle e) with
      | Some f => ref_name f
      | None => name (handle e)
      end C = Some obj /\
    o_data obj = data.

(** The service never drops a container, moves its address or takes it
    out of public reach: what every request of the adapter does to the
    containers. *)
Definition grows (m m' : gmap string Container) : Prop :=
  forall c C, m !! c = Some C ->
    exists C', m' !! c = Some C' /\ c_uri C' = c_uri C /\
               (c_public C = true -> c_public C' = true).

(** Neither collection of [full_listdir] holds the empty string. *)
Definition no_empty_entry (acc : gset string * list string) : Prop :=
  ("" ∉ fst acc) /\ (~ In "" (snd acc)).

(** [respects R m]: from every state, [m] ends (returning or raising) in a
    state related to the initial one by [R]. *)
Definition respects {A} (R : Env -> Env -> Prop) (m : M A) : Prop :=
  forall e, R e (snd (m e)).

(** Relations between the state before and after a method. *)

(** The handle is untouched. *)
Definition same_handle (e e' : Env) : Prop := handle e' = handle e.

(** The handle's bound object is the same (or as absent as before). *)
Definition same_file (e e' : Env) : Prop :=
  _file (handle e') = _file (handle e).

(** A handle that was bound is still bound to the same object. *)
Definition still_bound (e e' : Env) : Prop :=
  _file (handle e) <> None -> _file (handle e') = _file (handle e).

(** The operations on a program that can unbind the handle in use:
    assigning [file], and opening another handle through the adapter. *)
Definition rebinds (o : op) : Prop :=
  match o with
  | FSetFile _ | Open_ _ => True
  | _ => False
  end.

(** How many times the adapter's [size] operation was entered. *)
Definition is_size_call (c : call) : bool :=
  match c with CallSize _ => true | _ => false end.

Definition size_calls (e : Env) : nat :=
  List.length (List.filter is_size_call (calls (remote e))).

(** Neither the handle's memoized size nor the count of [size] calls moved. *)
Definition size_untouched (e e' : Env) : Prop :=
  _size (handle e') = _size (handle e) /\ size_calls e' = size_calls e.

(** The operations of a program that go to the adapter's [size] themselves
    or replace the handle in use. *)
Definition bypasses_handle_size (o : op) : Prop :=
  match o with
  | Size _ | Open_ _ => True
  | _ => False
  end.

(** One rewriting of a public address through the alias table, and the
    addresses derived from [u0] by rewriting any number of times (the
    adapter rewrites the cached address again on each use). *)
Definition alias_step (CNAMES : gmap string string) (u : string) : string :=
  match CNAMES !! u with
  | Some alias => alias
  | None => u
  end.

Definition derived (CNAMES : gmap string string) (u0 u : string) : Prop :=
  exists k : nat, Nat.iter k (alias_step CNAMES) u0 = u.

(** The bound container is publicly readable. *)
Definition public_bound (e : Env) : Prop :=
  forall c, _container (storage e) = Some c ->
    exists C, containers (remote e) !! c = Some C /\ c_public C = true.

(** The cached public address is derived from the address of the bound
    container. *)
Definition uri_of_bound (CNAMES : gmap string string) (e : Env) : Prop :=
  forall u, _container_public_uri (storage e) = Some u ->
    exists c C,
      _container (storage e) = Some c /\
      containers (remote e) !! c = Some C /\
      derived CNAMES (c_uri C) u.

Definition adapter_inv (CNAMES : gmap string string) (e : Env) : Prop :=
  public_bound e /\ uri_of_bound CNAMES e.

Definition keeps_inv (CNAMES : gmap string string) (e e' : Env) : Prop :=
  adapter_inv CNAMES e -> adapter_inv CNAMES e'.

(** ** The container of the specification's examples *)

Definition object_of (text : string) : CloudObject :=
  mkCloudObject (list_byte_of_string text) None.

Definition example_names : list string := ["a.txt"; "b/c.txt"; "b/d/e.txt"].

Definition example_container : Container :=
  mkContainer false "http://c0.cdn.example"
    [("a.txt", object_of "alpha");
     ("b/c.txt", object_of "hello world");
     ("b/d/e.txt", object_of "e")].

Definition example_remote : Remote :=
  mkRemote {[ "media" := example_container ]} [] [].

(** A new adapter on the container [media], with a handle on [b/c.txt]. *)
Definition example_env : Env :=
  mkEnv example_remote (mkStorage "media" None None None)
    (mkStorageFile "b/c.txt" 0 None None).

(** A new adapter on [media] with a handle on an object that is not
    there. *)
Definition missing_env : Env :=
  mkEnv example_remote (mkStorage "media" None None None)
    (mkStorageFile "z.txt" 0 None None).

Definition no_guess : string -> option string := fun _ => None.

(** [k] is the position of the first [/] of [r] that lies strictly after
    its first and strictly before its last character. *)
Definition first_inner_slash (r : string) (k : nat) : Prop :=
  (0 < k)%nat /\ (S k < String.length r)%nat /\
  Py.get k r = Some SLASH /\
  forall j : nat, (0 < j)%nat -> (j < k)%nat -> Py.get j r <> Some SLASH.

(** The cursor of the handle is where it was. *)
Definition same_pos (e e' : Env) : Prop := _pos (handle e') = _pos (handle e).

(** A container in which one object's name is the directory part of
    another's, and a new adapter on it. *)
Definition shadowed_container : Container :=
  mkContainer false "http://c1.cdn.example"
    [("b", object_of "x"); ("b/c.txt", object_of "y")].

Definition shadowed_env : Env :=
  mkEnv (mkRemote {[ "media" := shadowed_container ]} [] [])
    (mkStorage "media" None None None)
    (mkStorageFile "b" 0 None None).

(** * Properties *)

(** ** Python strings *)

Module PyFacts.
Import Py.

Lemma get_drop k : forall s i, get i (drop k s) = get (i + k) s.
Proof.
  induction k as [|k IH]; intros s i.
  - now rewrite Nat.add_0_r.
  - destruct s as [|a s]; simpl.
    + now destruct i.
    + rewrite IH, Nat.add_succ_r. reflexivity.
Qed.

Lemma get_take k : forall s i,
  get i (take k s) = if (i <? k)%nat then get i s else None.
Proof.
  induction k as [|k IH]; intros s i; simpl.
  - reflexivity.
  - destruct s as [|a s]; simpl.
    + now destruct (i <? S k)%nat.
    + destruct i as [|i]; [reflexivity|]. apply IH.
Qed.

Lemma get_beyond : forall s i, (String.length s <= i)%nat -> get i s = None.
Proof.
  induction s as [|a s IH]; intros i Hi; simpl in *; [reflexivity|].
  destruct i as [|i]; [lia|]. apply IH. lia.
Qed.

(** [find] is either [-1] or a position holding the needle. *)
Lemma find_range c : forall s,
  find c s = -1 \/ (0 <= find c s /\ get (Z.to_nat (find c s)) s = Some c).
Proof.
  induction s as [|a s IH]; simpl; [now left|].
  destruct (Ascii.eqb_spec a c) as [->|Hne].
  - right. split; [lia|reflexivity].
  - destruct IH as [IH|[IH1 IH2]].
    + left. rewrite IH. reflexivity.
    + right. replace (find c s <? 0) with false by lia.
      split; [lia|].
      replace (Z.to_nat (find c s + 1)) with (S (Z.to_nat (find c s))) by lia.
      exact IH2.
Qed.

Lemma find_absent c s : (forall i, get i s <> Some c) -> find c s = -1.
Proof.
  intros H. destruct (find_range c s) as [E|[_ E]]; [exact E|].
  now apply H in E.
Qed.

Lemma find_nonneg_nonempty c s : find c s <> -1 -> s <> "".
Proof. intros H ->. now apply H. Qed.

Lemma length_drop k : forall s,
  String.length (drop k s) = (String.length s - k)%nat.
Proof.
  induction k as [|k IH]; intros s; simpl; [lia|].
  destruct s as [|a s]; simpl; [reflexivity|apply IH].
Qed.

Lemma take_nonempty k a s : (0 < k)%nat -> take k (String a s) <> "".
Proof. destruct k; [lia|]. discriminate. Qed.

Lemma clip_one n : clip n 1 = Z.min 1 n.
Proof. reflexivity. Qed.

Lemma clip_minus_one n : clip n (-1) = Z.max 0 (n + -1).
Proof. reflexivity. Qed.

(** The positions of [s[1:-1]] are the positions [1 .. len s - 2] of [s]. *)
Lemma get_inner s i :
  get i (slice s (Some 1) (Some (-1))) =
  if (S (S i) <? String.length s)%nat then get (S i) s else None.
Proof.
  unfold slice, len. rewrite clip_one, clip_minus_one.
  rewrite get_take, get_drop.
  set (n := String.length s).
  destruct (Nat.ltb_spec (S (S i)) n) as [Hlt|Hge].
  - replace (Z.min 1 (Z.of_nat n)) with 1 by lia.
    replace (i + Z.to_nat 1)%nat with (S i) by lia.
    destruct (Nat.ltb_spec i
      (Z.to_nat (Z.max 0 (Z.of_nat n + -1) - 1))); [reflexivity|lia].
  - destruct (Nat.ltb_spec i
      (Z.to_nat (Z.max 0 (Z.of_nat n + -1) - Z.min 1 (Z.of_nat n))));
      [lia|reflexivity].
Qed.

Lemma slice_tail_nil k : slice "" (Some k) None = "".
Proof. unfold slice. simpl. now destruct (Z.to_nat _), (Z.to_nat _). Qed.

Lemma slice_head_nonempty s k : s <> "" -> 0 < k -> slice s None (Some k) <> "".
Proof.
  intros Hs Hk. destruct s as [|a s]; [congruence|].
  unfold slice, clip, len. replace (k <? 0) with false by lia.
  simpl drop. apply take_nonempty. simpl String.length. lia.
Qed.

Lemma truthy_true s : truthy s = true <-> s <> "".
Proof. destruct s; simpl; split; congruence. Qed.

End PyFacts.

(** ** Running the primitives *)

(** Unfolds the monad and the record updates, leaving the service's
    lookups and the data to the proof at hand. *)
Ltac run_monad :=
  unfold bind, ret, raise, try_except, get_env, modify, get_storage,
    get_handle, modify_storage, modify_handle, modify_remote, request, void,
    with_remote, with_storage, with_handle, set_containers, set_faults,
    log_call, set_connection, set_container, set_container_public_uri,
    set_pos, set_size, set_file;
  cbn.

Lemma request_answered {A} (c : call) (m : M A) e :
  faults (remote e) = [] ->
  request c m e = m (with_remote (log_call c (remote e)) e).
Proof. intros H. unfold request. cbn. rewrite H. reflexivity. Qed.

Lemma request_fault {A} (c : call) (m : M A) e x fs :
  faults (remote e) = Some x :: fs ->
  request c m e =
    (Raise x, with_remote (set_faults fs (log_call c (remote e))) e).
Proof. intros H. unfold request. cbn. rewrite H. reflexivity. Qed.

Lemma bind_run {A B} (m : M A) (f : A -> M B) e a e' :
  m e = (Ok a, e') -> bind m f e = f a e'.
Proof. intros H. unfold bind. rewrite H. reflexivity. Qed.

Lemma bind_raise {A B} (m : M A) (f : A -> M B) e x e' :
  m e = (Raise x, e') -> bind m f e = (Raise x, e').
Proof. intros H. unfold bind. rewrite H. reflexivity. Qed.

Lemma bind_inv {A B} (m : M A) (f : A -> M B) e r e2 :
  bind m f e = (r, e2) ->
  (exists a e1, m e = (Ok a, e1) /\ f a e1 = (r, e2)) \/
  (exists x, m e = (Raise x, e2) /\ r = Raise x).
Proof.
  unfold bind. destruct (m e) as [[a|x] e1]; intros H.
  - left. eauto.
  - right. injection H as <- <-. eauto.
Qed.

Lemma get_handle_run e : get_handle e = (Ok (handle e), e).
Proof. reflexivity. Qed.

Lemma get_storage_run e : get_storage e = (Ok (storage e), e).
Proof. reflexivity. Qed.

(** What fetching the container leaves behind when the service answers:
    the container is bound, and its objects and address are as before. *)
Lemma get_container_serving e C :
  serving e C ->
  exists e' C',
    _get_container e = (Ok (target e), e') /\
    serving e' C' /\
    _container (storage e') = Some (target e) /\
    c_objects C' = c_objects C /\ c_uri C' = c_uri C /\
    handle e' = handle e.
Proof.
  intros [Hf Hc]. unfold target in *.
  destruct e as [[cs fs cl] [cn conn cont uri] h]. cbn in *. subst fs.
  destruct cont as [c|].
  - eexists _, C. unfold serving, target. cbn. eauto 10.
  - destruct conn as [conn|], (c_public C) eqn:Hpub;
      unfold _get_container, _get_connection, cloudfiles.get_connection,
        cloudfiles.get_container, _set_container, cloudfiles.is_public,
        cloudfiles.make_public, cloudfiles.deref;
      run_monad; repeat (progress (rewrite ?Hc, ?Hpub; cbn)).
    all: eexists _, _; split; [reflexivity|];
      unfold serving, target; cbn; rewrite ?lookup_insert_eq; eauto 10.
Qed.

Lemma list_objects_serving e C c p :
  faults (remote e) = [] ->
  containers (remote e) !! c = Some C ->
  cloudfiles.list_objects c p e =
    (Ok (List.filter (String.prefix p) (names_of C)),
     with_remote (log_call (CallListObjects c p) (remote e)) e).
Proof.
  intros Hf Hc. unfold cloudfiles.list_objects.
  rewrite request_answered by exact Hf.
  unfold cloudfiles.deref. run_monad. rewrite Hc. reflexivity.
Qed.

(** ** Listings *)

Module PrefixFacts.
Import Py PyFacts.

Lemma take_all : forall s k, (String.length s <= k)%nat -> take k s = s.
Proof.
  induction s as [|a s IH]; intros [|k] H; simpl in *; try reflexivity;
    try lia.
  f_equal. apply IH. lia.
Qed.

Lemma drop_beyond : forall s k, (String.length s <= k)%nat -> drop k s = "".
Proof.
  induction s as [|a s IH]; intros [|k] H; simpl in *; try reflexivity;
    try lia.
  apply IH. lia.
Qed.

(** [s[k:]] for a bound that is not negative. *)
Lemma slice_from s k : 0 <= k -> slice s (Some k) None = drop (Z.to_nat k) s.
Proof.
  intros Hk. unfold slice, clip, len.
  replace (k <? 0) with false by lia.
  destruct (Z.le_gt_cases k (Z.of_nat (String.length s))) as [Hle|Hgt].
  - replace (Z.min k (Z.of_nat (String.length s))) with k by lia.
    apply take_all. rewrite length_drop. lia.
  - replace (Z.min k (Z.of_nat (String.length s)))
      with (Z.of_nat (String.length s)) by lia.
    rewrite Nat2Z.id, Z.sub_diag. simpl.
    rewrite !drop_beyond by lia. now destruct (Z.to_nat 0).
Qed.

(** Cutting [len p] characters off a name that starts with [p] removes
    exactly [p]. *)
Lemma prefix_strip : forall p n,
  String.prefix p n = true -> n = p ++ slice n (Some (len p)) None.
Proof.
  intros p n H. rewrite slice_from by (unfold len; lia).
  unfold len. rewrite Nat2Z.id. revert n H.
  induction p as [|a p IH]; intros n H; simpl in *; [reflexivity|].
  destruct n as [|b n]; simpl in H; [discriminate|].
  destruct (Ascii.ascii_dec a b) as [->|Hne]; [|discriminate].
  change (String b n = String b (p ++ drop (String.length p) n)).
  f_equal. now apply IH.
Qed.

Lemma endswith_app_slash : forall s, endswith (s ++ "/") SLASH = true.
Proof.
  induction s as [|a s IH]; [reflexivity|].
  simpl. destruct (s ++ "/") eqn:E; [now destruct s|exact IH].
Qed.

End PrefixFacts.

(** The files collected by the loop only grow, at the end. *)
Lemma full_listdir_files_grow n names : forall acc x,
  In x (snd acc) -> In x (snd (List.fold_left (full_listdir_step n) names acc)).
Proof.
  induction names as [|a names IH]; intros acc x Hx; simpl; [exact Hx|].
  apply IH. unfold full_listdir_step.
  repeat case_match; simpl; auto. apply in_or_app. now left.
Qed.

(** A name without an inner separator takes the file branch. *)
Lemma full_listdir_step_plain n acc name :
  no_inner_slash (Py.slice name (Some n) None) ->
  full_listdir_step n acc name =
    if Py.truthy (Py.slice name (Some n) None)
    then (fst acc, (snd acc ++ [Py.slice name (Some n) None])%list)
    else acc.
Proof.
  intros H. unfold full_listdir_step.
  rewrite PyFacts.find_absent; [reflexivity|].
  intros i. rewrite PyFacts.get_inner.
  destruct (Nat.ltb_spec (S (S i)) (String.length (Py.slice name (Some n) None)));
    [|discriminate].
  apply H; lia.
Qed.

(** Neither collection ever receives the empty string. *)
Lemma full_listdir_step_no_empty n acc name :
  no_empty_entry acc -> no_empty_entry (full_listdir_step n acc name).
Proof.
  intros [Hd Hf]. unfold full_listdir_step.
  set (r := Py.slice name (Some n) None).
  set (k := Py.find SLASH (Py.slice r (Some 1) (Some (-1)))).
  destruct (Z.eqb_spec (k + 1) 0) as [E|E]; simpl.
  - destruct (Py.truthy r) eqn:T; [|now split].
    split; [exact Hd|]. simpl. rewrite in_app_iff. intros [H|[H|[]]]; [auto|].
    apply PyFacts.truthy_true in T. congruence.
  - split; [|exact Hf]. simpl.
    assert (Hr : r <> "").
    { intros Hr. subst k. rewrite Hr in E. now apply E. }
    assert (Hk : 0 < k + 1).
    { destruct (PyFacts.find_range SLASH (Py.slice r (Some 1) (Some (-1))))
        as [H|[H _]]; fold k in H; lia. }
    pose proof (PyFacts.slice_head_nonempty r (k + 1) Hr Hk) as Hne.
    rewrite elem_of_union, elem_of_singleton. intros [Hs|Hs]; auto.
Qed.

Lemma full_listdir_fold_no_empty n names : forall acc,
  no_empty_entry acc ->
  no_empty_entry (List.fold_left (full_listdir_step n) names acc).
Proof.
  induction names as [|a names IH]; intros acc H; simpl; [exact H|].
  apply IH, full_listdir_step_no_empty, H.
Qed.

Lemma full_listdir_fold_file n names : forall acc name,
  In name names ->
  no_inner_slash (Py.slice name (Some n) None) ->
  Py.slice name (Some n) None <> "" ->
  In (Py.slice name (Some n) None)
     (snd (List.fold_left (full_listdir_step n) names acc)).
Proof.
  induction names as [|a names IH]; intros acc name Hin Hs Hne; [destruct Hin|].
  simpl. destruct Hin as [->|Hin]; [|now apply IH].
  apply full_listdir_files_grow.
  rewrite full_listdir_step_plain by exact Hs.
  apply PyFacts.truthy_true in Hne. rewrite Hne. simpl.
  apply in_or_app. right. now left.
Qed.

(** [full_listdir] is the loop over whatever the service listed. *)
Lemma full_listdir_run path e c e1 names e' :
  _get_container e = (Ok c, e1) ->
  cloudfiles.list_objects c (normalize path) e1 = (Ok names, e') ->
  full_listdir path e =
    (Ok (merge_sort str_le
           (elements (fst (List.fold_left
              (full_listdir_step (Py.len (normalize path))) names (∅, [])))),
         snd (List.fold_left
              (full_listdir_step (Py.len (normalize path))) names (∅, []))),
     e').
Proof.
  intros Hc Hl. unfold full_listdir.
  rewrite (bind_run _ _ _ _ _ Hc), (bind_run _ _ _ _ _ Hl).
  now destruct (List.fold_left _ _ _).
Qed.

Lemma listdir_run path e c e1 names e' :
  _get_container e = (Ok c, e1) ->
  cloudfiles.list_objects c (normalize path) e1 = (Ok names, e') ->
  listdir path e =
    (Ok ([], List.map
               (fun name => Py.slice name (Some (Py.len (normalize path))) None)
               names),
     e').
Proof.
  intros Hc Hl. unfold listdir.
  rewrite (bind_run _ _ _ _ _ Hc), (bind_run _ _ _ _ _ Hl). reflexivity.
Qed.

Lemma example_serving : serving example_env example_container.
Proof. split; reflexivity. Qed.

(** The orders in which three objects can be listed. *)
Lemma permutations_of_three {A} (x y z : A) (l : list A) :
  l ≡ₚ [x; y; z] ->
  l = [x; y; z] \/ l = [x; z; y] \/ l = [y; x; z] \/
  l = [y; z; x] \/ l = [z; x; y] \/ l = [z; y; x].
Proof.
  intros H.
  assert (Hlen : List.length l = 3%nat) by now rewrite H.
  destruct l as [|a [|b [|c [|d l]]]]; try discriminate. clear Hlen.
  assert (Ha : a ∈ [x; y; z]) by (rewrite <- H; left).
  rewrite !elem_of_cons in Ha.
  destruct Ha as [->|[->|[->|Ha]]]; [| | |now apply elem_of_nil in Ha].
  - apply Permutation_cons_inv, Permutation_length_2_inv in H.
    destruct H as [H|H]; injection H as -> ->; auto.
  - rewrite <- (perm_swap x y [z]) in H.
    apply Permutation_cons_inv, Permutation_length_2_inv in H.
    destruct H as [H|H]; injection H as -> ->; auto 10.
  - assert (E : [x; y; z] ≡ₚ [z; x; y]).
    { change ([x; y] ++ [z] ≡ₚ [z] ++ [x; y]). apply Permutation_app_comm. }
    rewrite E in H.
    apply Permutation_cons_inv, Permutation_length_2_inv in H.
    destruct H as [H|H]; injection H as -> ->; auto 10.
Qed.

(** ** C1 *)

(** C1, as the specification states it, fails: at the root of the example
    container the directory list is not [["b/"]]. *)
Lemma full_listdir_example_not_slashed :
  fst (full_listdir "" example_env) <> Ok (["b/"], ["a.txt"]).
Proof. vm_compute. discriminate. Qed.

(** C1, amended: for [full_listdir("")] over a container whose objects are
    exactly [a.txt], [b/c.txt] and [b/d/e.txt] (listed in any order), the
    result is [(["b"], ["a.txt"])]: a directory entry is the part of the
    name before its first inner slash, without the slash; the nested
    [b/d/e.txt] gives neither a file nor a second directory. *)
Theorem full_listdir_example (e : Env) (C : Container) :
  serving e C ->
  names_of C ≡ₚ example_names ->
  fst (full_listdir "" e) = Ok (["b"], ["a.txt"]).
Proof.
  intros Hs Hp.
  destruct (get_container_serving e C Hs)
    as (e1 & C1 & Hrun & [Hf1 Hc1] & Hb & Hobj & _).
  unfold target in Hc1. rewrite Hb in Hc1.
  assert (Hn : names_of C1 = names_of C) by (unfold names_of; now rewrite Hobj).
  pose proof (list_objects_serving e1 C1 (target e) (normalize "") Hf1 Hc1) as Hl.
  rewrite (full_listdir_run "" e _ _ _ _ Hrun Hl), Hn. simpl fst.
  apply permutations_of_three in Hp.
  destruct Hp as [-> | [-> | [-> | [-> | [-> | -> ]]]]]; vm_compute; reflexivity.
Qed.

Lemma full_listdir_example_witness :
  fst (full_listdir "" example_env) = Ok (["b"], ["a.txt"]).
Proof.
  apply (full_listdir_example example_env example_container).
  - exact example_serving.
  - reflexivity.
Defined.

#[local] Instance str_le_total : Total str_le.
Proof. intros a b. apply String.leb_total. Qed.

(** Whatever was listed, the directories come back sorted and without
    repetition. *)
Lemma full_listdir_dirs_sorted path e dirs files e' :
  full_listdir path e = (Ok (dirs, files), e') ->
  Sorted str_le dirs /\ NoDup dirs.
Proof.
  unfold full_listdir. intros H.
  apply bind_inv in H. destruct H as [(c & e1 & _ & H)|(x & _ & [=])].
  apply bind_inv in H. destruct H as [(names & e2 & _ & H)|(x & _ & [=])].
  destruct (List.fold_left _ _ _) as [ds fs]. injection H as <- <- <-.
  split.
  - apply Sorted_merge_sort. apply _.
  - rewrite merge_sort_Permutation. apply NoDup_elements.
Qed.

(** ** What [full_listdir] makes of a name *)

(** [find] returns the least position of the needle. *)
Lemma find_least c : forall s i,
  (Z.of_nat i < Py.find c s) -> Py.get i s <> Some c.
Proof.
  induction s as [|a s IH]; intros i Hi; simpl in *; [discriminate|].
  destruct (Ascii.eqb_spec a c) as [->|Hne]; [lia|].
  destruct (Py.find c s <? 0) eqn:Hneg; [lia|].
  destruct i as [|i]; [congruence|].
  apply IH. lia.
Qed.

Lemma find_absent_inv c s i : Py.find c s = -1 -> Py.get i s <> Some c.
Proof.
  revert i. induction s as [|a s IH]; intros i H; simpl in *; [discriminate|].
  destruct (Ascii.eqb_spec a c) as [->|Hne]; [discriminate|].
  destruct (Py.find c s <? 0) eqn:Hneg.
  - destruct i as [|i]; [congruence|]. apply IH.
    destruct (PyFacts.find_range c s) as [E|[E _]]; [exact E|lia].
  - lia.
Qed.

(** [s[:k]] for a bound within the string. *)
Lemma slice_to s k :
  0 <= k <= Py.len s -> Py.slice s None (Some k) = Py.take (Z.to_nat k) s.
Proof.
  intros Hk. unfold Py.slice, Py.clip.
  replace (k <? 0) with false by lia.
  replace (Z.min k (Py.len s)) with k by lia.
  now rewrite Z.sub_0_r.
Qed.

(** The three ways the loop of [full_listdir] treats a name, by its
    remainder [r]: a directory entry [r[:k]] at the first inner slash, a
    file when there is no inner slash, nothing when [r] is empty. *)
Lemma full_listdir_step_cases n acc name :
  let r := Py.slice name (Some n) None in
  (exists k, first_inner_slash r k /\
     full_listdir_step n acc name = ({[ Py.take k r ]} ∪ fst acc, snd acc)) \/
  (no_inner_slash r /\ r <> "" /\
     full_listdir_step n acc name = (fst acc, (snd acc ++ [r])%list)) \/
  (r = "" /\ full_listdir_step n acc name = acc).
Proof.
  intros r.
  destruct (PyFacts.find_range SLASH (Py.slice r (Some 1) (Some (-1))))
    as [Hnone|[Hpos Hget]].
  - right.
    assert (Hplain : no_inner_slash r).
    { intros i Hi Hlt Hc. destruct i as [|i]; [lia|].
      apply (find_absent_inv SLASH _ i Hnone).
      rewrite PyFacts.get_inner.
      destruct (Nat.ltb_spec (S (S i)) (String.length r)); [exact Hc|lia]. }
    pose proof (full_listdir_step_plain n acc name Hplain) as Hstep.
    fold r in Hstep.
    destruct (Py.truthy r) eqn:T.
    + left. apply PyFacts.truthy_true in T. auto.
    + right. split; [|exact Hstep].
      destruct (string_dec r "") as [E|E]; [exact E|].
      apply PyFacts.truthy_true in E. congruence.
  - left.
    set (j := Z.to_nat (Py.find SLASH (Py.slice r (Some 1) (Some (-1))))) in *.
    rewrite PyFacts.get_inner in Hget.
    destruct (Nat.ltb_spec (S (S j)) (String.length r)) as [Hlt|]; [|discriminate].
    exists (S j). split; [|].
    + repeat split; [lia|exact Hlt|exact Hget|].
      intros i Hi Hij Hc. destruct i as [|i]; [lia|].
      apply (find_least SLASH (Py.slice r (Some 1) (Some (-1))) i); [lia|].
      rewrite PyFacts.get_inner.
      destruct (Nat.ltb_spec (S (S i)) (String.length r)); [exact Hc|lia].
    + unfold full_listdir_step. fold r.
      replace (Py.find SLASH (Py.slice r (Some 1) (Some (-1))) + 1 =? 0)
        with false by lia.
      cbn [negb]. rewrite slice_to by (unfold Py.len; lia).
      now replace (Z.to_nat (Py.find SLASH (Py.slice r (Some 1) (Some (-1))) + 1))
        with (S j) by lia.
Qed.

Lemma first_inner_slash_unique r k k' :
  first_inner_slash r k -> first_inner_slash r k' -> k = k'.
Proof.
  intros (H0 & H1 & Hg & Hmin) (H0' & H1' & Hg' & Hmin').
  destruct (Nat.lt_trichotomy k k') as [H|[H|H]]; [|exact H|].
  - now destruct (Hmin' k H0 H).
  - now destruct (Hmin k' H0' H).
Qed.

Lemma first_inner_slash_not_plain r k :
  first_inner_slash r k -> ~ no_inner_slash r.
Proof. intros (H0 & H1 & Hg & _) Hp. exact (Hp k H0 H1 Hg). Qed.

(** The directories and files the loop has collected after a listing. *)
Lemma full_listdir_fold_dirs n names : forall acc d,
  d ∈ fst (List.fold_left (full_listdir_step n) names acc) <->
  d ∈ fst acc \/
  exists name k,
    In name names /\
    first_inner_slash (Py.slice name (Some n) None) k /\
    d = Py.take k (Py.slice name (Some n) None).
Proof.
  induction names as [|a names IH]; intros acc d; simpl.
  - split; [auto|]. intros [H|(name & k & [] & _)]. exact H.
  - rewrite IH. clear IH.
    destruct (full_listdir_step_cases n acc a)
      as [(k & Hk & ->)|[(Hp & Hne & ->)|(He & ->)]]; simpl.
    + rewrite elem_of_union, elem_of_singleton. split.
      * intros [[->|H]|(name & k' & Hin & Hk' & ->)]; eauto 8.
      * intros [H|(name & k' & [<-|Hin] & Hk' & ->)]; eauto 8.
        left. left. f_equal. eapply first_inner_slash_unique; eauto.
    + split.
      * intros [H|(name & k' & Hin & Hk' & ->)]; eauto 8.
      * intros [H|(name & k' & [<-|Hin] & Hk' & ->)]; eauto 8.
        now destruct (first_inner_slash_not_plain _ _ Hk').
    + split.
      * intros [H|(name & k' & Hin & Hk' & ->)]; eauto 8.
      * intros [H|(name & k' & [<-|Hin] & Hk' & ->)]; eauto 8.
        destruct Hk' as (_ & Hlen & _). rewrite He in Hlen. simpl in Hlen. lia.
Qed.

Lemma full_listdir_fold_files n names : forall acc f,
  In f (snd (List.fold_left (full_listdir_step n) names acc)) <->
  In f (snd acc) \/
  exists name,
    In name names /\ f = Py.slice name (Some n) None /\
    f <> "" /\ no_inner_slash f.
Proof.
  induction names as [|a names IH]; intros acc f; simpl.
  - split; [auto|]. intros [H|(name & [] & _)]. exact H.
  - rewrite IH. clear IH.
    destruct (full_listdir_step_cases n acc a)
      as [(k & Hk & ->)|[(Hp & Hne & ->)|(He & ->)]]; simpl.
    + split.
      * intros [H|(name & Hin & -> & Hf)]; eauto 8.
      * intros [H|(name & [<-|Hin] & -> & Hne & Hp)]; eauto 8.
        now destruct (first_inner_slash_not_plain _ _ Hk).
    + rewrite in_app_iff. simpl. split.
      * intros [[H|[<-|[]]]|(name & Hin & -> & Hf)]; eauto 8.
      * intros [H|(name & [<-|Hin] & -> & Hne' & Hp')]; eauto 8.
    + split.
      * intros [H|(name & Hin & -> & Hf)]; eauto 8.
      * intros [H|(name & [<-|Hin] & -> & Hne & Hp)]; eauto 8. congruence.
Qed.

(** The files are collected in listing order. *)
Lemma full_listdir_fold_sublist n names : forall acc,
  exists l,
    snd (List.fold_left (full_listdir_step n) names acc) = (snd acc ++ l)%list /\
    sublist l (List.map (fun name => Py.slice name (Some n) None) names).
Proof.
  induction names as [|a names IH]; intros acc; simpl.
  - exists []. split; [now rewrite List.app_nil_r|constructor].
  - destruct (IH (full_listdir_step n acc a)) as (l & -> & Hl).
    destruct (full_listdir_step_cases n acc a)
      as [(k & Hk & ->)|[(Hp & Hne & ->)|(He & ->)]]; simpl.
    + exists l. split; [reflexivity|]. now constructor.
    + exists (Py.slice a (Some n) None :: l).
      split; [now rewrite <- List.app_assoc|]. now constructor.
    + exists l. split; [reflexivity|]. now constructor.
Qed.

(** A result of [full_listdir] comes from a listing the service gave. *)
Lemma full_listdir_inv path e dirs files e' :
  full_listdir path e = (Ok (dirs, files), e') ->
  exists c e1 names,
    _get_container e = (Ok c, e1) /\
    cloudfiles.list_objects c (normalize path) e1 = (Ok names, e') /\
    dirs = merge_sort str_le
             (elements (fst (List.fold_left
                (full_listdir_step (Py.len (normalize path))) names (∅, [])))) /\
    files = snd (List.fold_left
                (full_listdir_step (Py.len (normalize path))) names (∅, [])).
Proof.
  unfold full_listdir. intros H.
  apply bind_inv in H. destruct H as [(c & e1 & Hc & H)|(x & _ & [=])].
  apply bind_inv in H. destruct H as [(names & e2 & Hl & H)|(x & _ & [=])].
  exists c, e1, names.
  destruct (List.fold_left _ _ _) as [ds fs]. injection H as <- <- <-.
  auto.
Qed.

(** ** C2 *)

(** C2, as the specification states it, fails: a remainder without an
    inner slash can still come back as a directory.  Over the objects [b]
    and [b/c.txt] the name [b] has no inner slash and is returned as a
    file, and [b] is returned as a directory too, on account of
    [b/c.txt]. *)
Lemma plain_name_listed_as_directory :
  In "b" (names_of shadowed_container) /\
  no_inner_slash (Py.slice "b" (Some (Py.len (normalize ""))) None) /\
  fst (full_listdir "" shadowed_env) = Ok (["b"], ["b"]).
Proof.
  split; [now left|]. split.
  - intros i H0 H1. vm_compute in H1. lia.
  - vm_compute. reflexivity.
Qed.

(** C2, amended: whatever the service listed for [full_listdir(path)], a
    listed name whose remainder (the name minus the normalized prefix) has
    no [/] strictly between its first and last character takes the file
    branch of the loop: that name adds nothing to the directories, and the
    remainder, when not empty, is appended to the files and is in the
    returned files; the remainder is among the returned directories
    exactly when some listed name has it as the part before its first
    inner slash; an empty remainder is dropped, and the empty string is
    never returned, as a directory or as a file. *)
Theorem full_listdir_plain_name_is_file
    (path : string) (e e1 e' : Env) (c : string) (names : list string) :
  _get_container e = (Ok c, e1) ->
  cloudfiles.list_objects c (normalize path) e1 = (Ok names, e') ->
  exists dirs files,
    full_listdir path e = (Ok (dirs, files), e') /\
    ~ In "" dirs /\ ~ In "" files /\
    forall name, In name names ->
      let r := Py.slice name (Some (Py.len (normalize path))) None in
      no_inner_slash r ->
      (forall acc,
         full_listdir_step (Py.len (normalize path)) acc name =
           if Py.truthy r then (fst acc, (snd acc ++ [r])%list) else acc) /\
      (r <> "" -> In r files) /\
      (In r dirs <->
       exists other k,
         In other names /\
         first_inner_slash
           (Py.slice other (Some (Py.len (normalize path))) None) k /\
         r = Py.take k (Py.slice other (Some (Py.len (normalize path))) None)).
Proof.
  intros Hc Hl. eexists _, _. split; [exact (full_listdir_run _ _ _ _ _ _ Hc Hl)|].
  destruct (full_listdir_fold_no_empty (Py.len (normalize path)) names (∅, []))
    as [Hd Hf].
  { split; simpl; [apply not_elem_of_empty|tauto]. }
  split; [|split; [exact Hf|]].
  - intros Hin. apply Hd.
    apply elem_of_elements. rewrite <- (merge_sort_Permutation str_le).
    now apply list_elem_of_In.
  - intros name Hin r Hr. split; [|split].
    + intros acc. now apply full_listdir_step_plain.
    + intros Hne. now apply full_listdir_fold_file.
    + rewrite <- list_elem_of_In, merge_sort_Permutation, elem_of_elements.
      rewrite full_listdir_fold_dirs. split.
      * intros [H|H]; [now apply not_elem_of_empty in H|exact H].
      * intros H. now right.
Qed.

Lemma full_listdir_plain_name_is_file_witness :
  exists dirs files,
    fst (full_listdir "" example_env) = Ok (dirs, files) /\
    In "a.txt" files /\ ~ In "a.txt" dirs.
Proof.
  destruct (get_container_serving example_env example_container example_serving)
    as (e1 & C1 & Hrun & [Hf1 Hc1] & Hb & Hobj & _).
  unfold target in Hc1. rewrite Hb in Hc1.
  pose proof (list_objects_serving e1 C1 _ (normalize "") Hf1 Hc1) as Hl.
  destruct (full_listdir_plain_name_is_file "" _ _ _ _ _ Hrun Hl)
    as (dirs & files & Hrun' & _ & _ & Hplain).
  exists dirs, files. split; [now rewrite Hrun'|].
  destruct (Hplain "a.txt") as (_ & Hfile & Hdir).
  - unfold names_of. rewrite Hobj. simpl. now left.
  - intros [|[|[|[|[|i]]]]] H0 H1; vm_compute in H1 |- *;
      try discriminate; lia.
  - split; [apply Hfile; discriminate|].
    intros Hin. apply Hdir in Hin.
    destruct Hin as (other & k & Hin & (Hk0 & Hk1 & Hg & _) & Heq).
    unfold names_of in Hin. rewrite Hobj in Hin. simpl in Hin.
    destruct Hin as [<-|[<-|[<-|[]]]].
    + do 5 (destruct k as [|k];
            [first [lia | vm_compute in Hg; discriminate]|]).
      vm_compute in Hk1. lia.
    + destruct k as [|k]; [lia|]. vm_compute in Heq. discriminate.
    + destruct k as [|k]; [lia|]. vm_compute in Heq. discriminate.
Defined.

(** ** C3 *)

(** C3: [listdir(path)] works on the path with [/] appended when the path
    is not empty and does not end with [/]; whatever the service listed, it
    returns no directories and, in listing order, each listed name cut by
    the length of the normalized path; under a service that lists the names
    starting with the prefix, each name is that prefix followed by the
    returned entry; and [listdir("b")] over [a.txt], [b/c.txt],
    [b/d/e.txt] returns [([], ["c.txt"; "d/e.txt"])]. *)
Theorem listdir_strips_prefix (path : string) (e : Env) :
  let p := normalize path in
  (path = "" -> p = "") /\
  (path <> "" -> Py.endswith path SLASH = true -> p = path) /\
  (path <> "" -> Py.endswith path SLASH = false -> p = path ++ "/") /\
  (forall c e1 names e',
     _get_container e = (Ok c, e1) ->
     cloudfiles.list_objects c p e1 = (Ok names, e') ->
     listdir path e =
       (Ok ([], List.map (fun n => Py.slice n (Some (Py.len p)) None) names), e')) /\
  (forall C, serving e C ->
     exists files,
       fst (listdir path e) = Ok ([], files) /\
       Forall2 (fun n r => n = p ++ r)
         (List.filter (String.prefix p) (names_of C)) files) /\
  (forall C, serving e C -> names_of C = example_names ->
     fst (listdir "b" e) = Ok ([], ["c.txt"; "d/e.txt"])).
Proof.
  assert (Hserv : forall q C, serving e C ->
            exists e',
              listdir q e =
                (Ok ([], List.map
                       (fun n => Py.slice n (Some (Py.len (normalize q))) None)
                       (List.filter (String.prefix (normalize q)) (names_of C))),
                 e')).
  { intros q C Hs.
    destruct (get_container_serving e C Hs)
      as (e1 & C1 & Hrun & [Hf1 Hc1] & Hb & Hobj & _).
    unfold target in Hc1. rewrite Hb in Hc1.
    pose proof (list_objects_serving e1 C1 _ (normalize q) Hf1 Hc1) as Hl.
    eexists. rewrite (listdir_run q e _ _ _ _ Hrun Hl).
    unfold names_of. rewrite Hobj. reflexivity. }
  intros p. subst p. unfold normalize at 1 2 3.
  repeat split.
  - now intros ->.
  - intros Hne He. rewrite He. now destruct path.
  - intros Hne He. rewrite He. destruct path; [congruence|reflexivity].
  - intros c e1 names e' Hc Hl. exact (listdir_run _ _ _ _ _ _ Hc Hl).
  - intros C Hs. destruct (Hserv path C Hs) as [e' Hrun].
    eexists. rewrite Hrun. split; [reflexivity|]. clear Hrun.
    induction (names_of C) as [|n l IH]; simpl; [constructor|].
    destruct (String.prefix (normalize path) n) eqn:Hp; [|exact IH].
    simpl. constructor; [|exact IH]. now apply PrefixFacts.prefix_strip.
  - intros C Hs Hn. destruct (Hserv "b" C Hs) as [e' Hrun].
    rewrite Hrun, Hn. reflexivity.
Qed.

Lemma listdir_strips_prefix_witness :
  fst (listdir "b" example_env) = Ok ([], ["c.txt"; "d/e.txt"]).
Proof.
  destruct (listdir_strips_prefix "b" example_env) as (_ & _ & _ & _ & _ & H).
  exact (H example_container example_serving eq_refl).
Defined.

(** ** Deleting and probing objects *)

Lemma delete_object_serving e C c n :
  faults (remote e) = [] ->
  containers (remote e) !! c = Some C ->
  exists e' C',
    cloudfiles.delete_object c n e =
      (match cloudfiles.lookup_object n C with
       | Some _ => Ok tt
       | None => Raise (ResponseError 404 "Not Found")
       end, e') /\
    faults (remote e') = [] /\
    containers (remote e') !! c = Some C' /\
    storage e' = storage e /\ handle e' = handle e.
Proof.
  intros Hf Hc. unfold cloudfiles.delete_object.
  rewrite request_answered by exact Hf.
  unfold cloudfiles.deref. run_monad. rewrite Hc. cbn.
  destruct (cloudfiles.lookup_object n C); cbn.
  - eexists _, _. split; [reflexivity|]. cbn.
    rewrite lookup_insert_eq. auto.
  - eexists _, _. split; [reflexivity|]. cbn. eauto.
Qed.

Lemma delete_serving e C n :
  serving e C ->
  exists e' C', delete n e = (Ok tt, e') /\ serving e' C'.
Proof.
  intros Hs.
  destruct (get_container_serving e C Hs)
    as (e1 & C1 & Hrun & [Hf1 Hc1] & Hb & _).
  unfold target in Hc1. rewrite Hb in Hc1.
  destruct (delete_object_serving e1 C1 (target e) n Hf1 Hc1)
    as (e2 & C2 & Hdel & Hf2 & Hc2 & Hst & _).
  exists e2, C2. split.
  - unfold delete, try_except. rewrite (bind_run _ _ _ _ _ Hrun), Hdel.
    now destruct (cloudfiles.lookup_object n C1).
  - split; [exact Hf2|]. unfold target. now rewrite Hst, Hb.
Qed.

(** ** C4 *)

(** C4: [delete(n)] returns when the remote delete returns and when it
    raises a response error of status 404, and raises again, unchanged, any
    other exception of the remote delete; so a second [delete(n)] whose
    remote delete can only return or answer 404 returns, and over a
    service that answers every request two deletes in a row return. *)
Theorem delete_swallows_not_found (n : string) (e : Env) :
  let attempt := (c <- _get_container ;; cloudfiles.delete_object c n) in
  (fst (attempt e) = Ok tt -> delete n e = (Ok tt, snd (attempt e))) /\
  (forall reason, fst (attempt e) = Raise (ResponseError 404 reason) ->
     delete n e = (Ok tt, snd (attempt e))) /\
  (forall x, fst (attempt e) = Raise x ->
     (forall reason, x <> ResponseError 404 reason) ->
     delete n e = (Raise x, snd (attempt e))) /\
  (forall e1, e1 = snd (delete n e) ->
     (fst (attempt e1) = Ok tt \/
      exists reason, fst (attempt e1) = Raise (ResponseError 404 reason)) ->
     fst (delete n e1) = Ok tt) /\
  (forall C, serving e C -> fst ((delete n ;;; delete n) e) = Ok tt).
Proof.
  intros attempt.
  assert (Hdel : forall e0, delete n e0 =
            match attempt e0 with
            | (Raise (ResponseError status reason), e') =>
                if status =? 404 then (Ok tt, e')
                else (Raise (ResponseError status reason), e')
            | r => r
            end).
  { intros e0. unfold delete, try_except. fold attempt.
    destruct (attempt e0) as [[[]|x] e']; [reflexivity|].
    destruct x; try reflexivity. now destruct (status =? 404). }
  repeat split.
  - intros H. rewrite Hdel. destruct (attempt e) as [r e']; simpl in *. now subst.
  - intros reason H. rewrite Hdel.
    destruct (attempt e) as [r e']; simpl in *. now subst.
  - intros x H Hx. rewrite Hdel.
    destruct (attempt e) as [r e']; simpl in *. subst r.
    destruct x as [status reason| | | |]; try reflexivity.
    destruct (Z.eqb_spec status 404) as [->|]; [|reflexivity].
    now destruct (Hx reason).
  - intros e1 _ [H|[reason H]]; rewrite Hdel;
      destruct (attempt e1) as [r e']; simpl in *; now subst.
  - intros C Hs.
    destruct (delete_serving e C n Hs) as (e1 & C1 & Hrun1 & Hs1).
    destruct (delete_serving e1 C1 n Hs1) as (e2 & C2 & Hrun2 & _).
    now rewrite (bind_run _ _ _ _ _ Hrun1), Hrun2.
Qed.

Lemma delete_swallows_not_found_witness :
  fst ((delete "a.txt" ;;; delete "a.txt") example_env) = Ok tt.
Proof.
  destruct (delete_swallows_not_found "a.txt" example_env) as (_ & _ & _ & _ & H).
  exact (H example_container example_serving).
Defined.

(** A failure of the remote delete other than 404 comes out of [delete]
    as it is: here the service answers the delete request with status 500
    (the three requests before it, which fetch the container, are
    answered). *)
Example delete_reraises_server_error :
  fst (delete "a.txt"
         (with_remote
            (set_faults [None; None; None; Some (ResponseError 500 "Server Error")]
               (remote example_env))
            example_env))
  = Raise (ResponseError 500 "Server Error").
Proof. vm_compute. reflexivity. Qed.

(** ** C5 *)

Lemma get_object_serving e C c n :
  faults (remote e) = [] ->
  containers (remote e) !! c = Some C ->
  cloudfiles.get_object c n e =
    (match cloudfiles.lookup_object n C with
     | Some o =>
         Ok (mkCloudRef c n (Z.of_nat (List.length (o_data o))) (o_content_type o))
     | None => Raise NoSuchObject
     end,
     with_remote (log_call (CallGetObject c n) (remote e)) e).
Proof.
  intros Hf Hc. unfold cloudfiles.get_object.
  rewrite request_answered by exact Hf.
  unfold cloudfiles.deref. run_monad. rewrite Hc. cbn.
  now destruct (cloudfiles.lookup_object n C).
Qed.

(** Fetching an object under a service that answers: the handle of the
    object when it is there, [NoSuchObject] when it is not; the container
    ends up bound and its objects are as before. *)
Lemma get_cloud_obj_serving e C n :
  serving e C ->
  exists e' C',
    _get_cloud_obj n e =
      (match cloudfiles.lookup_object n C with
       | Some o =>
           Ok (mkCloudRef (target e) n (Z.of_nat (List.length (o_data o)))
                 (o_content_type o))
       | None => Raise NoSuchObject
       end, e') /\
    serving e' C' /\
    _container (storage e') = Some (target e) /\
    c_objects C' = c_objects C /\
    handle e' = handle e.
Proof.
  intros Hs.
  destruct (get_container_serving e C Hs)
    as (e1 & C1 & Hrun & [Hf1 Hc1] & Hb & Hobj & _ & Hh).
  unfold target in Hc1. rewrite Hb in Hc1.
  exists (with_remote (log_call (CallGetObject (target e) n) (remote e1)) e1), C1.
  split; [|split; [|auto]].
  - unfold _get_cloud_obj. rewrite (bind_run _ _ _ _ _ Hrun).
    rewrite (get_object_serving e1 C1 _ n Hf1 Hc1).
    unfold cloudfiles.lookup_object. now rewrite Hobj.
  - split; [exact Hf1|]. unfold target. cbn. now rewrite Hb.
Qed.

(** C5: [exists(n)] returns [False] exactly when the fetch of the object
    raises [NoSuchObject], returns [True] whenever the fetch returns, and
    raises every other exception of the fetch unchanged; it leaves the
    state the fetch left.  Over a service that answers every request, it
    tells whether the container holds the object. *)
Theorem exists_maps_no_such_object (n : string) (e : Env) :
  (fst (exists_ n e) = Ok false <->
   fst (_get_cloud_obj n e) = Raise NoSuchObject) /\
  (forall o, fst (_get_cloud_obj n e) = Ok o -> fst (exists_ n e) = Ok true) /\
  (forall x, fst (_get_cloud_obj n e) = Raise x -> x <> NoSuchObject ->
     fst (exists_ n e) = Raise x) /\
  snd (exists_ n e) = snd (_get_cloud_obj n e) /\
  (forall C, serving e C ->
     fst (exists_ n e) =
       Ok (match cloudfiles.lookup_object n C with
           | Some _ => true
           | None => false
           end)).
Proof.
  assert (Hex : exists_ n e =
            match _get_cloud_obj n e with
            | (Ok _, e') => (Ok true, e')
            | (Raise NoSuchObject, e') => (Ok false, e')
            | (Raise x, e') => (Raise x, e')
            end).
  { unfold exists_, try_except, bind.
    destruct (_get_cloud_obj n e) as [[o|x] e']; [reflexivity|].
    now destruct x. }
  repeat split.
  - rewrite Hex. destruct (_get_cloud_obj n e) as [[o|x] e']; simpl;
      [discriminate|]. destruct x; simpl; congruence.
  - intros H. rewrite Hex.
    destruct (_get_cloud_obj n e) as [r e']; simpl in *. now subst.
  - intros o H. rewrite Hex.
    destruct (_get_cloud_obj n e) as [r e']; simpl in *. now subst.
  - intros x H Hx. rewrite Hex.
    destruct (_get_cloud_obj n e) as [r e']; simpl in *. subst.
    destruct x; simpl; congruence.
  - rewrite Hex. destruct (_get_cloud_obj n e) as [[o|x] e']; [reflexivity|].
    now destruct x.
  - intros C Hs. rewrite Hex.
    destruct (get_cloud_obj_serving e C n Hs) as (e' & C' & Hrun & _).
    rewrite Hrun. now destruct (cloudfiles.lookup_object n C).
Qed.

Lemma exists_example :
  fst (exists_ "a.txt" example_env) = Ok true /\
  fst (exists_ "z.txt" example_env) = Ok false.
Proof.
  split.
  - destruct (exists_maps_no_such_object "a.txt" example_env)
      as (_ & _ & _ & _ & H).
    exact (H example_container example_serving).
  - destruct (exists_maps_no_such_object "z.txt" example_env)
      as (_ & _ & _ & _ & H).
    exact (H example_container example_serving).
Defined.

(** A failure of the fetch other than [NoSuchObject] comes out of
    [exists] as it is. *)
Example exists_reraises_server_error :
  fst (exists_ "a.txt"
         (with_remote
            (set_faults [Some (ResponseError 503 "Unavailable")]
               (remote example_env))
            example_env))
  = Raise (ResponseError 503 "Unavailable").
Proof. vm_compute. reflexivity. Qed.

(** ** Reading through the handle *)

Lemma cloud_read_serving e C o size offset obj :
  faults (remote e) = [] ->
  containers (remote e) !! ref_container o = Some C ->
  cloudfiles.lookup_object (ref_name o) C = Some obj ->
  cloudfiles.read o size offset e =
    (Ok (cloudfiles.read_range (o_data obj) size offset),
     with_remote
       (log_call (CallRead (ref_container o) (ref_name o) size offset) (remote e)) e).
Proof.
  intros Hf Hc Ho. unfold cloudfiles.read.
  rewrite request_answered by exact Hf.
  unfold cloudfiles.deref. run_monad. rewrite Hc. cbn. now rewrite Ho.
Qed.

(** A read of a handle whose object holds [data]: it returns the range
    asked for at the cursor, moves the cursor by the length returned,
    leaves the handle bound, and the object still holds [data]. *)
Lemma read_reads e data num_bytes :
  reads e data ->
  exists e',
    read num_bytes e =
      (Ok (cloudfiles.read_range data (or_minus_one num_bytes) (_pos (handle e))),
       e') /\
    reads e' data /\
    _pos (handle e') =
      _pos (handle e) +
      Z.of_nat (List.length
        (cloudfiles.read_range data (or_minus_one num_bytes) (_pos (handle e)))) /\
    closed (handle e') = false.
Proof.
  intros (Hf & C & obj & Hc & Ho & Hd).
  destruct (_file (handle e)) as [f|] eqn:Hfile.
  - assert (Hget : _get_file e = (Ok f, e)).
    { unfold _get_file. rewrite (bind_run _ _ _ _ _ (get_handle_run e)).
      now rewrite Hfile. }
    eexists. split; [|split; [|split]].
    + unfold read. rewrite (bind_run _ _ _ _ _ Hget).
      rewrite (bind_run _ _ _ _ _ (get_handle_run e)).
      rewrite (bind_run _ _ _ _ _ (cloud_read_serving e C f _ _ obj Hf Hc Ho)).
      rewrite Hd. reflexivity.
    + split; [exact Hf|]. exists C, obj. cbn. rewrite Hfile. auto.
    + reflexivity.
    + unfold closed. cbn. now rewrite Hfile.
  - destruct (get_cloud_obj_serving e C (name (handle e)) (conj Hf Hc))
      as (e1 & C1 & Hrun & [Hf1 Hc1] & Hb & Hobj & Hh).
    assert (Ho1 : cloudfiles.lookup_object (name (handle e)) C1 = Some obj).
    { unfold cloudfiles.lookup_object in *. now rewrite Hobj. }
    rewrite Ho in Hrun.
    set (f := mkCloudRef (target e) (name (handle e))
                (Z.of_nat (List.length (o_data obj))) (o_content_type obj)) in *.
    unfold target in Hc1. rewrite Hb in Hc1.
    set (e2 := with_handle (set_file (Some f) (handle e1)) e1).
    assert (Hget : _get_file e = (Ok f, e2)).
    { unfold _get_file. rewrite (bind_run _ _ _ _ _ (get_handle_run e)).
      rewrite Hfile. now rewrite (bind_run _ _ _ _ _ Hrun). }
    eexists. split; [|split; [|split]].
    + unfold read. rewrite (bind_run _ _ _ _ _ Hget).
      rewrite (bind_run _ _ _ _ _ (get_handle_run e2)).
      rewrite (bind_run _ _ _ _ _
                 (cloud_read_serving e2 C1 f _ _ obj Hf1 Hc1 Ho1)).
      cbn. rewrite Hd, Hh. reflexivity.
    + split; [exact Hf1|]. exists C1, obj. cbn. auto.
    + reflexivity.
    + reflexivity.
Qed.

Lemma example_reads : reads example_env (list_byte_of_string "hello world").
Proof.
  split; [reflexivity|].
  exists example_container, (object_of "hello world").
  repeat split.
Qed.

Lemma firstn_then_rest {A} (k : nat) (l : list A) :
  (List.firstn k l ++ List.skipn (List.length (List.firstn k l)) l)%list = l.
Proof.
  rewrite List.length_firstn.
  destruct (Nat.le_gt_cases k (List.length l)) as [H|H].
  - rewrite Nat.min_l by exact H. apply List.firstn_skipn.
  - rewrite Nat.min_r by lia.
    rewrite List.firstn_all2, List.skipn_all2 by lia. apply List.app_nil_r.
Qed.

(** ** C6 *)

(** C6: on a handle at cursor 0 whose object holds [data], [read(5)]
    followed by [read()] returns two pieces whose concatenation is what a
    single [read()] returns from the same state, namely [data]; each read
    moves the cursor by the number of bytes it returned, and the second
    read returns the bytes from the offset the first one left. *)
Theorem read_in_two_chunks (e : Env) (data : list byte) :
  reads e data ->
  _pos (handle e) = 0 ->
  exists d1 e1 d2 e2 d e',
    read (Some 5) e = (Ok d1, e1) /\
    read None e1 = (Ok d2, e2) /\
    read None e = (Ok d, e') /\
    (d1 ++ d2)%list = d /\ d = data /\
    _pos (handle e1) = _pos (handle e) + Z.of_nat (List.length d1) /\
    _pos (handle e2) = _pos (handle e1) + Z.of_nat (List.length d2) /\
    _pos (handle e') = _pos (handle e) + Z.of_nat (List.length d) /\
    d2 = List.skipn (Z.to_nat (_pos (handle e1))) data.
Proof.
  intros Hr H0.
  destruct (read_reads e data (Some 5) Hr) as (e1 & Hrun1 & Hr1 & Hp1 & _).
  destruct (read_reads e1 data None Hr1) as (e2 & Hrun2 & _ & Hp2 & _).
  destruct (read_reads e data None Hr) as (e' & Hrun & _ & Hp & _).
  do 6 eexists.
  split; [exact Hrun1|]. split; [exact Hrun2|]. split; [exact Hrun|].
  assert (Hall : cloudfiles.read_range data (or_minus_one None) (_pos (handle e))
                 = data) by now rewrite H0.
  assert (Hrest : cloudfiles.read_range data (or_minus_one None) (_pos (handle e1))
                  = List.skipn (Z.to_nat (_pos (handle e1))) data) by reflexivity.
  rewrite Hall in *. rewrite Hrest in *.
  repeat split; try assumption.
  rewrite Hp1, H0. unfold cloudfiles.read_range. simpl.
  rewrite Z.add_0_l, Nat2Z.id. apply firstn_then_rest.
Qed.

Lemma read_in_two_chunks_witness :
  exists d1 e1 d2 e2,
    read (Some 5) example_env = (Ok d1, e1) /\
    read None e1 = (Ok d2, e2) /\
    (d1 ++ d2)%list = list_byte_of_string "hello world".
Proof.
  destruct (read_in_two_chunks example_env _ example_reads eq_refl)
    as (d1 & e1 & d2 & e2 & d & e' & H1 & H2 & _ & H3 & H4 & _).
  exists d1, e1, d2, e2. repeat split; [exact H1|exact H2|].
  now rewrite H3.
Defined.

(** ** C10 *)

(** C10: [read(0)] is [read()]: the count passes through [num_bytes or -1],
    so on every handle and at every cursor the two calls are the same
    computation; when the handle's object holds [data], [read(0)] returns
    all of [data] from the cursor on and moves the cursor past it. *)
Theorem read_zero_reads_all (e : Env) :
  read (Some 0) e = read None e /\
  forall data, reads e data ->
    let rest := List.skipn (Z.to_nat (_pos (handle e))) data in
    fst (read (Some 0) e) = Ok rest /\
    _pos (handle (snd (read (Some 0) e))) =
      _pos (handle e) + Z.of_nat (List.length rest).
Proof.
  split; [reflexivity|].
  intros data Hr rest.
  destruct (read_reads e data (Some 0) Hr) as (e' & Hrun & _ & Hp & _).
  rewrite Hrun. split; [reflexivity|exact Hp].
Qed.

Lemma read_zero_reads_all_witness :
  fst (read (Some 0) example_env) = Ok (list_byte_of_string "hello world").
Proof.
  destruct (read_zero_reads_all example_env) as [_ H].
  exact (proj1 (H _ example_reads)).
Defined.

(** ** What a method leaves alone *)

Section Respects.

Variable R : Env -> Env -> Prop.
Hypothesis R_refl : forall e, R e e.
Hypothesis R_trans : forall e1 e2 e3, R e1 e2 -> R e2 e3 -> R e1 e3.

Lemma respects_ret {A} (a : A) : respects R (ret a).
Proof. intros e. apply R_refl. Qed.

Lemma respects_raise {A} (x : exn) : respects R (@raise A x).
Proof. intros e. apply R_refl. Qed.

Lemma respects_get_env : respects R get_env.
Proof. intros e. apply R_refl. Qed.

Lemma respects_bind {A B} (m : M A) (f : A -> M B) :
  respects R m -> (forall a, respects R (f a)) -> respects R (bind m f).
Proof.
  intros Hm Hf e. unfold bind. specialize (Hm e).
  destruct (m e) as [[a|x] e1]; simpl in *; [|exact Hm].
  eapply R_trans; [exact Hm|apply Hf].
Qed.

Lemma respects_try_except {A} (m : M A) (h : exn -> option (M A)) :
  respects R m ->
  (forall x k, h x = Some k -> respects R k) ->
  respects R (try_except m h).
Proof.
  intros Hm Hh e. unfold try_except. specialize (Hm e).
  destruct (m e) as [[a|x] e1]; simpl in *; [exact Hm|].
  destruct (h x) as [k|] eqn:E; [|exact Hm].
  eapply R_trans; [exact Hm|exact (Hh x k E e1)].
Qed.

Lemma respects_modify (f : Env -> Env) :
  (forall e, R e (f e)) -> respects R (modify f).
Proof. intros H e. apply H. Qed.

Lemma respects_get_storage : respects R get_storage.
Proof. intros e. apply R_refl. Qed.

Lemma respects_get_handle : respects R get_handle.
Proof. intros e. apply R_refl. Qed.

Lemma respects_void {A} (m : M A) : respects R m -> respects R (void m).
Proof. intros H. apply respects_bind; [exact H|]. intros a. apply respects_ret. Qed.

(** A request adds its call to the log and consumes a scheduled fault. *)
Lemma respects_request {A} (c : call) (answer : M A) :
  (forall e, R e (with_remote (log_call c (remote e)) e)) ->
  (forall e fs, R e (with_remote (set_faults fs (remote e)) e)) ->
  respects R answer ->
  respects R (request c answer).
Proof.
  intros Hlog Hfs Ha. unfold request.
  apply respects_bind; [apply respects_modify, Hlog|]. intros _.
  apply respects_bind; [apply respects_get_env|]. intros e0.
  destruct (faults (remote e0)) as [|[x|] fs].
  - exact Ha.
  - apply respects_bind; [apply respects_modify; intros e; apply Hfs|].
    intros _. apply respects_raise.
  - apply respects_bind; [apply respects_modify; intros e; apply Hfs|].
    intros _. exact Ha.
Qed.

End Respects.

Lemma grows_refl m : grows m m.
Proof. intros c C H. eauto. Qed.

Lemma grows_trans m1 m2 m3 : grows m1 m2 -> grows m2 m3 -> grows m1 m3.
Proof.
  intros H12 H23 c C H.
  destruct (H12 c C H) as (C2 & H2 & Hu2 & Hp2).
  destruct (H23 c C2 H2) as (C3 & H3 & Hu3 & Hp3).
  exists C3. repeat split; [exact H3|congruence|auto].
Qed.

(** Replacing a container by one with the same address that is at least
    as public. *)
Lemma grows_insert m c C C' :
  m !! c = Some C -> c_uri C' = c_uri C ->
  (c_public C = true -> c_public C' = true) ->
  grows m (<[c := C']> m).
Proof.
  intros Hc Hu Hp c0 C0 H0. destruct (decide (c = c0)) as [<-|Hne].
  - exists C'. rewrite lookup_insert_eq. split; [reflexivity|].
    rewrite Hc in H0. injection H0 as <-. auto.
  - exists C0. rewrite lookup_insert_ne by exact Hne. auto.
Qed.

Section Methods.

Variable R : Env -> Env -> Prop.
Hypothesis R_refl : forall e, R e e.
Hypothesis R_trans : forall e1 e2 e3, R e1 e2 -> R e2 e3 -> R e1 e3.

(** What [R] must tolerate for the client library to respect it. *)
Hypothesis R_log : forall c e,
  (forall n, c <> CallSize n) -> R e (with_remote (log_call c (remote e)) e).
Hypothesis R_faults : forall e fs,
  R e (with_remote (set_faults fs (remote e)) e).
Hypothesis R_grows : forall e m',
  grows (containers (remote e)) m' ->
  R e (with_remote (set_containers m' (remote e)) e).

Local Ltac by_rules :=
  repeat first
    [ exact R_refl | exact R_trans | apply R_faults
    | solve [apply R_log; intros; discriminate]
    | progress intros
    | assumption
    | match goal with
      | |- respects _ (ret _) => apply respects_ret
      | |- respects _ (raise _) => apply respects_raise
      | |- respects _ get_env => apply respects_get_env
      | |- respects _ get_storage => apply respects_get_storage
      | |- respects _ get_handle => apply respects_get_handle
      | |- respects _ (void _) => apply respects_void
      | |- respects _ (bind _ _) => apply respects_bind
      | |- respects _ (request _ _) => apply respects_request
      | |- respects _ (match ?x with _ => _ end) => destruct x
      end ].

Local Ltac by_request :=
  apply respects_request;
  [ exact R_refl | exact R_trans
  | intros; apply R_log; intros; discriminate
  | intros; apply R_faults | ].

Lemma respects_deref c : respects R (cloudfiles.deref c).
Proof. unfold cloudfiles.deref. by_rules. Qed.

Lemma respects_cloud_get_connection : respects R cloudfiles.get_connection.
Proof.
  unfold cloudfiles.get_connection. by_rules.
Qed.

Lemma respects_cloud_get_container conn c :
  respects R (cloudfiles.get_container conn c).
Proof.
  unfold cloudfiles.get_container. by_rules.
Qed.

Lemma respects_is_public c : respects R (cloudfiles.is_public c).
Proof. unfold cloudfiles.is_public. by_rules. apply respects_deref. Qed.

Lemma respects_public_uri c : respects R (cloudfiles.public_uri c).
Proof. unfold cloudfiles.public_uri. by_rules. apply respects_deref. Qed.

(** The three requests that change a container replace it by one with
    the same address and the same public flag, or a raised one. *)
Lemma respects_replace c (f : Container -> Container) :
  (forall C, c_uri (f C) = c_uri C) ->
  (forall C, c_public C = true -> c_public (f C) = true) ->
  respects R
    (C <- cloudfiles.deref c ;;
     modify_remote (fun r =>
       set_containers (<[c := f C]> (containers r)) r)).
Proof.
  intros Hu Hp e. unfold cloudfiles.deref. run_monad.
  destruct (containers (remote e) !! c) as [C|] eqn:Hc; cbn; [|apply R_refl].
  apply (R_grows e). eapply grows_insert; eauto.
Qed.

Lemma respects_make_public c : respects R (cloudfiles.make_public c).
Proof.
  unfold cloudfiles.make_public. by_request.
  apply (respects_replace c
           (fun C => mkContainer true (c_uri C) (c_objects C))); auto.
Qed.

Lemma respects_get_object c n : respects R (cloudfiles.get_object c n).
Proof.
  unfold cloudfiles.get_object. by_rules. apply respects_deref.
Qed.

Lemma respects_delete_object c n : respects R (cloudfiles.delete_object c n).
Proof.
  unfold cloudfiles.delete_object. by_request.
  intros e. unfold cloudfiles.deref. run_monad.
  destruct (containers (remote e) !! c) as [C|] eqn:Hc; cbn; [|apply R_refl].
  destruct (cloudfiles.lookup_object n C); cbn; [|apply R_refl].
  apply (R_grows e). eapply grows_insert; eauto.
Qed.

Lemma respects_list_objects c p : respects R (cloudfiles.list_objects c p).
Proof.
  unfold cloudfiles.list_objects. by_rules. apply respects_deref.
Qed.

Lemma respects_cloud_read o size offset :
  respects R (cloudfiles.read o size offset).
Proof.
  unfold cloudfiles.read. by_rules. apply respects_deref.
Qed.

Lemma respects_send o data : respects R (cloudfiles.send o data).
Proof.
  unfold cloudfiles.send. by_request.
  apply (respects_replace (ref_container o)
           (fun C => cloudfiles.put_object (ref_name o)
                       (mkCloudObject data (ref_content_type o)) C)); auto.
Qed.

(** *** The adapter *)

Variable CNAMES : gmap string string.
Variable guess_type : string -> option string.

Hypothesis R_connection : forall e v,
  R e (with_storage (set_connection v (storage e)) e).

Lemma respects_get_connection : respects R _get_connection.
Proof.
  unfold _get_connection. by_rules.
  - apply respects_cloud_get_connection.
  - apply respects_modify. intros e. apply R_connection.
Qed.

Lemma respects_set_connection v : respects R (_set_connection v).
Proof. apply respects_modify. intros e. apply R_connection. Qed.

(** For an [R] that does not look at the adapter's attributes. *)
Lemma respects_set_container_free c :
  (forall e s, R e (with_storage s e)) ->
  respects R (_set_container c).
Proof.
  intros Hs. unfold _set_container. by_rules.
  - apply respects_is_public.
  - apply respects_make_public.
  - apply respects_modify. intros e. apply Hs.
  - apply respects_modify. intros e. apply Hs.
Qed.

Lemma respects_get_container :
  (forall c, respects R (_set_container c)) ->
  respects R _get_container.
Proof.
  intros Hset. unfold _get_container. by_rules.
  - apply respects_get_connection.
  - apply respects_cloud_get_container.
  - apply Hset.
Qed.

Lemma respects_get_container_url_free :
  (forall e s, R e (with_storage s e)) ->
  respects R (_get_container_url CNAMES).
Proof.
  intros Hs. unfold _get_container_url. by_rules.
  - apply respects_get_container. intros c.
    now apply respects_set_container_free.
  - apply respects_public_uri.
  - apply respects_modify. intros e. apply Hs.
  - apply respects_modify. intros e. apply Hs.
Qed.

Section WithContainer.

Hypothesis R_set_container : forall c, respects R (_set_container c).

Lemma respects_get_cloud_obj n : respects R (_get_cloud_obj n).
Proof.
  unfold _get_cloud_obj. by_rules.
  - now apply respects_get_container.
  - apply respects_get_object.
Qed.

Lemma respects_save n content : respects R (_save guess_type n content).
Proof.
  unfold _save. by_rules.
  - now apply respects_get_container.
  - apply respects_send.
Qed.

Lemma respects_delete n : respects R (delete n).
Proof.
  unfold delete. apply respects_try_except; by_rules.
  - now apply respects_get_container.
  - apply respects_delete_object.
  - destruct x; try discriminate. injection H as <-.
    destruct (status =? 404); by_rules.
Qed.

Lemma respects_exists n : respects R (exists_ n).
Proof.
  unfold exists_. apply respects_try_except; by_rules.
  - apply respects_get_cloud_obj.
  - destruct x; try discriminate. injection H as <-. by_rules.
Qed.

Lemma respects_listdir path : respects R (listdir path).
Proof.
  unfold listdir. by_rules.
  - now apply respects_get_container.
  - apply respects_list_objects.
Qed.

Lemma respects_full_listdir path : respects R (full_listdir path).
Proof.
  unfold full_listdir. by_rules.
  - now apply respects_get_container.
  - apply respects_list_objects.
Qed.

Lemma respects_size n :
  (forall e, R e (with_remote (log_call (CallSize n) (remote e)) e)) ->
  respects R (size n).
Proof.
  intros Hlog. unfold size. by_rules. apply respects_get_cloud_obj.
Qed.

Lemma respects_url n :
  respects R (_get_container_url CNAMES) -> respects R (url CNAMES n).
Proof. intros H. unfold url. by_rules. Qed.

(** *** The file handle *)

Hypothesis R_pos : forall e p, R e (with_handle (set_pos p (handle e)) e).

Lemma respects_open : respects R open.
Proof. apply respects_modify. intros e. apply R_pos. Qed.

Lemma respects_close : respects R close.
Proof. apply respects_modify. intros e. apply R_pos. Qed.

Lemma respects_seek p : respects R (seek p).
Proof. apply respects_modify. intros e. apply R_pos. Qed.

Lemma respects_get_file_free :
  (forall e v, R e (with_handle (set_file v (handle e)) e)) ->
  respects R _get_file.
Proof.
  intros Hf. unfold _get_file. by_rules.
  - apply respects_get_cloud_obj.
  - apply respects_modify. intros e. apply Hf.
Qed.

Lemma respects_set_file v :
  (forall e v, R e (with_handle (set_file v (handle e)) e)) ->
  respects R (_set_file v).
Proof.
  intros Hf. unfold _set_file.
  destruct v; apply respects_modify; intros e; apply Hf.
Qed.

Lemma respects_read num_bytes :
  respects R _get_file -> respects R (read num_bytes).
Proof.
  intros Hf. unfold read. by_rules.
  - apply respects_cloud_read.
  - apply respects_modify. intros e. apply R_pos.
Qed.

Lemma respects_get_size :
  (forall n e, R e (with_remote (log_call (CallSize n) (remote e)) e)) ->
  (forall e v, R e (with_handle (set_size v (handle e)) e)) ->
  respects R _get_size.
Proof.
  intros Hlog Hs. unfold _get_size. by_rules.
  - apply respects_size. apply Hlog.
  - apply respects_modify. intros e. apply Hs.
Qed.

Lemma respects_set_size v :
  (forall e v, R e (with_handle (set_size v (handle e)) e)) ->
  respects R (_set_size v).
Proof. intros Hs. apply respects_modify. intros e. apply Hs. Qed.

End WithContainer.

End Methods.

(** ** The handle's bound object *)

Local Ltac same_handle_closure :=
  solve [intros; unfold same_handle in *; cbn; congruence].

Lemma get_cloud_obj_same_handle n : respects same_handle (_get_cloud_obj n).
Proof.
  apply respects_get_cloud_obj; try same_handle_closure.
  intros c. apply respects_set_container_free; same_handle_closure.
Qed.

Lemma cloud_read_same_handle o size offset :
  respects same_handle (cloudfiles.read o size offset).
Proof. apply respects_cloud_read; same_handle_closure. Qed.

(** A fetch of the handle's object that returns leaves the handle bound to
    what it returned. *)
Lemma get_file_binds e f e' :
  _get_file e = (Ok f, e') -> _file (handle e') = Some f.
Proof.
  unfold _get_file. rewrite (bind_run _ _ _ _ _ (get_handle_run e)).
  destruct (_file (handle e)) as [f0|] eqn:Hf.
  - intros H. injection H as <- <-. exact Hf.
  - intros H. apply bind_inv in H.
    destruct H as [(f1 & e1 & _ & H)|(x & _ & H)]; [|discriminate].
    injection H as <- <-. reflexivity.
Qed.

Lemma read_binds num_bytes e d e' :
  read num_bytes e = (Ok d, e') -> closed (handle e') = false.
Proof.
  unfold read. intros H.
  apply bind_inv in H. destruct H as [(f & e1 & Hf & H)|(x & _ & H)];
    [|discriminate].
  apply get_file_binds in Hf.
  rewrite (bind_run _ _ _ _ _ (get_handle_run e1)) in H.
  apply bind_inv in H. destruct H as [(data & e2 & Hr & H)|(x & _ & H)];
    [|discriminate].
  pose proof (cloud_read_same_handle f (or_minus_one num_bytes)
                (_pos (handle e1)) e1) as Hh.
  rewrite Hr in Hh. unfold same_handle in Hh. simpl in Hh.
  injection H as _ <-. unfold closed. cbn. now rewrite Hh, Hf.
Qed.

Local Ltac same_file_closure :=
  solve [intros; unfold same_file in *; cbn; congruence].

Lemma set_container_same_file c : respects same_file (_set_container c).
Proof. apply respects_set_container_free; same_file_closure. Qed.

Lemma op_same_file CNAMES guess_type (o : op) :
  match o with
  | FGetFile | FSetFile _ | FRead _ | Open_ _ => False
  | _ => True
  end ->
  respects same_file (op_sem CNAMES guess_type o).
Proof.
  pose proof set_container_same_file as Hset.
  destruct o; intros Hop; try destruct Hop; unfold op_sem.
  - apply respects_set_connection; same_file_closure.
  - apply respects_void; [same_file_closure..|].
    apply respects_get_connection; same_file_closure.
  - apply Hset.
  - apply respects_void; [same_file_closure..|].
    apply respects_get_container; first [exact Hset|same_file_closure].
  - apply respects_void; [same_file_closure..|].
    apply respects_get_container_url_free; same_file_closure.
  - apply respects_void; [same_file_closure..|].
    apply respects_save; first [exact Hset|same_file_closure].
  - apply respects_delete; first [exact Hset|same_file_closure].
  - apply respects_void; [same_file_closure..|].
    apply respects_exists; first [exact Hset|same_file_closure].
  - apply respects_void; [same_file_closure..|].
    apply respects_listdir; first [exact Hset|same_file_closure].
  - apply respects_void; [same_file_closure..|].
    apply respects_full_listdir; first [exact Hset|same_file_closure].
  - apply respects_void; [same_file_closure..|].
    apply respects_size; first [exact Hset|same_file_closure].
  - apply respects_void; [same_file_closure..|].
    apply respects_url; try same_file_closure.
    all: try (apply respects_get_container_url_free; same_file_closure).
  - apply respects_void; [same_file_closure..|].
    apply respects_get_size; first [exact Hset|same_file_closure].
  - apply respects_set_size; same_file_closure.
  - apply respects_open; same_file_closure.
  - apply respects_close; same_file_closure.
  - apply respects_seek; same_file_closure.
Qed.

Local Ltac still_bound_closure :=
  solve [intros; unfold still_bound in *; cbn in *; intros; auto; congruence].

Lemma still_bound_trans e1 e2 e3 :
  still_bound e1 e2 -> still_bound e2 e3 -> still_bound e1 e3.
Proof.
  unfold still_bound. intros H12 H23 H1.
  rewrite <- (H12 H1). apply H23. now rewrite (H12 H1).
Qed.

Lemma get_file_still_bound : respects still_bound _get_file.
Proof.
  intros e Hb. unfold _get_file.
  rewrite (bind_run _ _ _ _ _ (get_handle_run e)).
  destruct (_file (handle e)) eqn:Hf; [cbn; exact Hf|congruence].
Qed.

Lemma read_still_bound num_bytes : respects still_bound (read num_bytes).
Proof.
  apply respects_read; try still_bound_closure.
  - apply still_bound_trans.
  - apply get_file_still_bound.
Qed.

(** Whatever else runs, a bound handle stays bound to its object. *)
Lemma op_still_bound CNAMES guess_type (o : op) :
  ~ rebinds o -> respects still_bound (op_sem CNAMES guess_type o).
Proof.
  intros Hop.
  assert (Hsame : match o with
                  | FGetFile | FSetFile _ | FRead _ | Open_ _ => False
                  | _ => True
                  end -> respects still_bound (op_sem CNAMES guess_type o)).
  { intros H e _. now apply op_same_file. }
  destruct o; try (apply Hsame; exact I); try (exfalso; apply Hop; exact I).
  - apply respects_void; [still_bound_closure|apply still_bound_trans|].
    apply get_file_still_bound.
  - apply respects_void; [still_bound_closure|apply still_bound_trans|].
    apply read_still_bound.
Qed.

(** ** C9 *)

(** C9, as the specification states it, fails: [open()] does not clear the
    bound object.  After a read has bound the handle of the example,
    [open()] leaves it bound, and the handle is still not closed. *)
Lemma open_keeps_reference_example :
  _file (handle (snd (read None example_env))) <> None /\
  _file (handle (snd (open (snd (read None example_env))))) =
    _file (handle (snd (read None example_env))) /\
  closed (handle (snd (open (snd (read None example_env))))) = false.
Proof. vm_compute. repeat split. discriminate. Qed.

(** C9, amended: [close()] and [open()] both reset the cursor to 0 and
    change nothing else, so the bound object stays bound; assigning [None]
    to [file] clears it, and in a program no operation but an assignment
    to [file] (or opening another handle) turns a bound handle into an
    unbound one; [closed] holds exactly when no object is bound; [open()]
    does not bind the object, a [read()] that returns does. *)
Theorem close_keeps_reference CNAMES guess_type (e : Env) :
  close e = (Ok tt, with_handle (set_pos 0 (handle e)) e) /\
  open e = (Ok tt, with_handle (set_pos 0 (handle e)) e) /\
  _pos (handle (snd (close e))) = 0 /\
  _file (handle (snd (close e))) = _file (handle e) /\
  _file (handle (snd (open e))) = _file (handle e) /\
  closed (handle (snd (_set_file None e))) = true /\
  (closed (handle e) = true <-> _file (handle e) = None) /\
  (forall num_bytes d e',
     read num_bytes e = (Ok d, e') -> closed (handle e') = false) /\
  (forall o,
     closed (handle e) = false ->
     closed (handle (step CNAMES guess_type e o)) = true ->
     o = FSetFile None \/ exists n, o = Open_ n).
Proof.
  repeat split; try reflexivity.
  - unfold closed. now destruct (_file (handle e)).
  - unfold closed. now intros ->.
  - intros num_bytes d e'. apply read_binds.
  - intros o Hb Hc.
    assert (Hkeep : forall o', ~ rebinds o' ->
              closed (handle (step CNAMES guess_type e o')) = false).
    { intros o' Ho. pose proof (op_still_bound CNAMES guess_type o' Ho e) as Hk.
      unfold still_bound, step, closed in *.
      destruct (_file (handle e)); [|discriminate].
      now rewrite Hk. }
    destruct o as [| | | | |n| | | | | | | | | | |[f|]| | | |];
      try (rewrite Hkeep in Hc by (intros []); discriminate).
    + right. now exists n.
    + discriminate.
    + now left.
Qed.

(** ** The memoized size *)

Local Ltac size_untouched_closure :=
  solve [intros; unfold size_untouched, size_calls in *; cbn;
         intuition congruence].

Lemma size_untouched_log c e :
  (forall n, c <> CallSize n) ->
  size_untouched e (with_remote (log_call c (remote e)) e).
Proof.
  intros H. unfold size_untouched, size_calls. cbn.
  destruct c; try (split; reflexivity). now destruct (H n).
Qed.

Lemma set_container_size_untouched c :
  respects size_untouched (_set_container c).
Proof.
  apply respects_set_container_free;
    first [exact size_untouched_log | size_untouched_closure].
Qed.

Lemma get_cloud_obj_size_untouched n :
  respects size_untouched (_get_cloud_obj n).
Proof.
  apply respects_get_cloud_obj;
    first [exact size_untouched_log | exact set_container_size_untouched
          | size_untouched_closure].
Qed.

(** [size] on a handle that has no memoized size: one call of the
    adapter's [size], whose value is kept when it returns. *)
Lemma get_size_fetches e :
  _size (handle e) = None ->
  _get_size e =
    match _get_cloud_obj (name (handle e))
            (with_remote (log_call (CallSize (name (handle e))) (remote e)) e)
    with
    | (Ok o, e') =>
        (Ok (ref_size o), with_handle (set_size (Some (ref_size o)) (handle e')) e')
    | (Raise x, e') => (Raise x, e')
    end.
Proof.
  intros H. unfold _get_size.
  rewrite (bind_run _ _ _ _ _ (get_handle_run e)), H.
  unfold size, bind, modify_remote, modify, ret. cbn.
  now destruct (_get_cloud_obj _ _) as [[o|x] e'].
Qed.

Lemma op_size_untouched CNAMES guess_type (o : op) :
  match o with
  | Size _ | Open_ _ | FGetSize | FSetSize _ => False
  | _ => True
  end ->
  respects size_untouched (op_sem CNAMES guess_type o).
Proof.
  pose proof set_container_size_untouched as Hset.
  pose proof size_untouched_log as Hlog.
  assert (Hurl : respects size_untouched (_get_container_url CNAMES)).
  { apply respects_get_container_url_free;
      first [exact Hlog | size_untouched_closure]. }
  assert (Hfile : respects size_untouched _get_file).
  { apply respects_get_file_free;
      first [exact Hlog | exact Hset | size_untouched_closure]. }
  destruct o; intros Hop; try destruct Hop; unfold op_sem;
    try (apply respects_void; [size_untouched_closure..|]).
  - apply respects_set_connection; size_untouched_closure.
  - apply respects_get_connection;
      first [exact Hlog | size_untouched_closure].
  - apply Hset.
  - apply respects_get_container;
      first [exact Hlog | exact Hset | size_untouched_closure].
  - exact Hurl.
  - apply respects_save;
      first [exact Hlog | exact Hset | size_untouched_closure].
  - apply respects_delete;
      first [exact Hlog | exact Hset | size_untouched_closure].
  - apply respects_exists;
      first [exact Hlog | exact Hset | size_untouched_closure].
  - apply respects_listdir;
      first [exact Hlog | exact Hset | size_untouched_closure].
  - apply respects_full_listdir;
      first [exact Hlog | exact Hset | size_untouched_closure].
  - apply respects_url;
      first [exact Hurl | exact Hlog | size_untouched_closure].
  - exact Hfile.
  - apply respects_set_file; size_untouched_closure.
  - apply respects_read;
      first [exact Hfile | exact Hlog | exact Hset | size_untouched_closure].
  - apply respects_open; size_untouched_closure.
  - apply respects_close; size_untouched_closure.
  - apply respects_seek; size_untouched_closure.
Qed.

(** ** C7 *)

(** C7, as the specification states it, fails: on a handle whose object is
    not there the fetch raises, nothing is memoized, and the next access
    to [size] fetches again: two accesses, two calls of the adapter's
    [size]. *)
Lemma size_fetched_twice_example :
  size_calls (exec ∅ no_guess [FGetSize; FGetSize] missing_env) = 2%nat /\
  fst (_get_size missing_env) = Raise NoSuchObject.
Proof. vm_compute. split; reflexivity. Qed.

(** What an access to [size] does, by whether the handle holds a size. *)
Lemma size_held_or_fetched CNAMES guess_type (e : Env) :
  (forall v, _size (handle e) = Some v -> _get_size e = (Ok v, e)) /\
  (_size (handle e) = None ->
     size_calls (snd (_get_size e)) = S (size_calls e) /\
     (forall v, fst (_get_size e) = Ok v ->
        _size (handle (snd (_get_size e))) = Some v) /\
     (forall x, fst (_get_size e) = Raise x ->
        _size (handle (snd (_get_size e))) = None)) /\
  (forall v, _set_size v e = (Ok tt, with_handle (set_size (Some v) (handle e)) e)) /\
  (forall ops,
     _size (handle e) <> None ->
     Forall (fun o => ~ bypasses_handle_size o) ops ->
     size_calls (exec CNAMES guess_type ops e) = size_calls e /\
     _size (handle (exec CNAMES guess_type ops e)) <> None).
Proof.
  assert (Hmemo : forall e0 v, _size (handle e0) = Some v ->
            _get_size e0 = (Ok v, e0)).
  { intros e0 v H. unfold _get_size.
    now rewrite (bind_run _ _ _ _ _ (get_handle_run e0)), H. }
  split; [apply Hmemo|]. split; [|split; [reflexivity|]].
  - intros H. rewrite (get_size_fetches e H).
    pose proof (get_cloud_obj_size_untouched (name (handle e))
      (with_remote (log_call (CallSize (name (handle e))) (remote e)) e))
      as [Hs Hc].
    destruct (_get_cloud_obj _ _) as [[o|x] e']; cbn in *;
      (split; [|split]); try discriminate.
    + exact Hc.
    + now intros v [= <-].
    + exact Hc.
    + intros _ _. now rewrite Hs.
  - intros ops. revert e.
    induction ops as [|o ops IH]; intros e Hsome Hops; [now split|].
    inversion Hops as [|o' ops' Ho Hrest]; subst. simpl.
    assert (Hstep : size_calls (step CNAMES guess_type e o) = size_calls e /\
                    _size (handle (step CNAMES guess_type e o)) <> None).
    { destruct (_size (handle e)) as [v|] eqn:Hv; [|congruence].
      assert (Hkeep : match o with
                      | Size _ | Open_ _ | FGetSize | FSetSize _ => False
                      | _ => True
                      end -> size_calls (step CNAMES guess_type e o) = size_calls e /\
                             _size (handle (step CNAMES guess_type e o)) <> None).
      { intros Hk. destruct (op_size_untouched CNAMES guess_type o Hk e) as [H1 H2].
        unfold step. split; [exact H2|]. rewrite H1, Hv. discriminate. }
      destruct o; try (apply Hkeep; exact I); try (destruct Ho; exact I).
      - unfold step, op_sem, void.
        rewrite (bind_run _ _ _ _ _ (Hmemo e v Hv)). cbn.
        split; [reflexivity|]. rewrite Hv. discriminate.
      - unfold step. cbn. split; [reflexivity|discriminate]. }
    destruct Hstep as [Hc Hs].
    destruct (IH (step CNAMES guess_type e o) Hs Hrest) as [Hc' Hs'].
    split; [congruence|exact Hs'].
Qed.


(** A call of the adapter's [size] counts as one call, whether it returns
    or raises, and leaves the size the handle holds alone. *)
Lemma size_counts_one n e :
  size_calls (snd (size n e)) = S (size_calls e) /\
  _size (handle (snd (size n e))) = _size (handle e).
Proof.
  pose proof (get_cloud_obj_size_untouched n
    (with_remote (log_call (CallSize n) (remote e)) e)) as [Hs Hc].
  unfold size, bind, modify_remote, modify, ret. cbn.
  destruct (_get_cloud_obj _ _) as [[o|x] e']; cbn in *; split; auto.
Qed.

(** An access on a handle that holds no size is the adapter's [size] on
    the handle's name: its value is returned and memoized when it
    returns, its exception comes out and nothing is memoized when it
    raises. *)
Lemma get_size_runs_size e :
  _size (handle e) = None ->
  _get_size e =
    match size (name (handle e)) e with
    | (Ok v, e1) => (Ok v, with_handle (set_size (Some v) (handle e1)) e1)
    | (Raise x, e1) => (Raise x, e1)
    end.
Proof.
  intros H. unfold _get_size.
  rewrite (bind_run _ _ _ _ _ (get_handle_run e)), H.
  unfold bind at 1. now destruct (size (name (handle e)) e) as [[v|x] e1].
Qed.

(** C7, amended: an access to [size] on a handle that holds a size (memoized
    or assigned) returns it and touches nothing, the service included; on
    a handle that holds none, the access is one call of the adapter's
    [size] on the handle's name: when that call returns [v], the access
    returns [v] and the handle holds [v]; when it raises, the access
    raises the same exception and the handle still holds nothing (so the
    next access calls again); assigning [size] sets the held value
    without any call; once the handle holds a size, no program on the
    handle and the adapter (short of calling the adapter's [size]
    directly or opening another handle) ever calls the adapter's [size]
    again; so a program whose first access fetches a size that returns
    makes that one call and no other. *)
Theorem size_fetched_until_known CNAMES guess_type (e : Env) :
  (forall v, _size (handle e) = Some v -> _get_size e = (Ok v, e)) /\
  (_size (handle e) = None ->
     size_calls (snd (_get_size e)) = S (size_calls e) /\
     (forall v, fst (_get_size e) = Ok v ->
        _size (handle (snd (_get_size e))) = Some v) /\
     (forall x, fst (_get_size e) = Raise x ->
        _size (handle (snd (_get_size e))) = None)) /\
  (forall v, _set_size v e = (Ok tt, with_handle (set_size (Some v) (handle e)) e)) /\
  (forall ops,
     _size (handle e) <> None ->
     Forall (fun o => ~ bypasses_handle_size o) ops ->
     size_calls (exec CNAMES guess_type ops e) = size_calls e /\
     _size (handle (exec CNAMES guess_type ops e)) <> None) /\
  (_size (handle e) = None ->
     _get_size e =
       match size (name (handle e)) e with
       | (Ok v, e1) => (Ok v, with_handle (set_size (Some v) (handle e1)) e1)
       | (Raise x, e1) => (Raise x, e1)
       end) /\
  (forall n,
     size_calls (snd (size n e)) = S (size_calls e) /\
     _size (handle (snd (size n e))) = _size (handle e)) /\
  (forall v ops,
     _size (handle e) = None ->
     fst (size (name (handle e)) e) = Ok v ->
     Forall (fun o => ~ bypasses_handle_size o) ops ->
     fst (_get_size e) = Ok v /\
     _size (handle (step CNAMES guess_type e FGetSize)) = Some v /\
     size_calls (exec CNAMES guess_type (FGetSize :: ops) e) = S (size_calls e)).
Proof.
  destruct (size_held_or_fetched CNAMES guess_type e) as (H1 & H2 & H3 & H4).
  split; [exact H1|]. split; [exact H2|]. split; [exact H3|].
  split; [exact H4|]. split; [apply get_size_runs_size|].
  split; [intros n; apply size_counts_one|].
  intros v ops Hnone Hret Hops.
  pose proof (get_size_runs_size e Hnone) as Hrun.
  destruct (size_counts_one (name (handle e)) e) as [Hcount _].
  destruct (size (name (handle e)) e) as [[v'|x] e1] eqn:Hsize; [|discriminate].
  cbn in Hret, Hcount. injection Hret as ->.
  assert (Hstep : step CNAMES guess_type e FGetSize =
                  with_handle (set_size (Some v) (handle e1)) e1).
  { unfold step, op_sem, void. now rewrite (bind_run _ _ _ _ _ Hrun). }
  split; [now rewrite Hrun|]. split; [now rewrite Hstep|].
  change (exec CNAMES guess_type (FGetSize :: ops) e)
    with (exec CNAMES guess_type ops (step CNAMES guess_type e FGetSize)).
  destruct (size_held_or_fetched CNAMES guess_type
              (step CNAMES guess_type e FGetSize)) as (_ & _ & _ & H4').
  destruct (H4' ops) as [Hc _]; [now rewrite Hstep|exact Hops|].
  rewrite Hc, Hstep. exact Hcount.
Qed.

Lemma size_fetched_until_known_witness :
  size_calls
    (exec ∅ no_guess [FGetSize; FGetSize; FRead None; FGetSize] example_env)
  = 1%nat /\
  fst (_get_size example_env) = Ok 11.
Proof.
  destruct (size_fetched_until_known ∅ no_guess example_env)
    as (_ & _ & _ & _ & _ & _ & H).
  destruct (H 11 [FGetSize; FRead None; FGetSize]) as (Hv & _ & Hc).
  - reflexivity.
  - vm_compute. reflexivity.
  - repeat constructor; intros [].
  - split; [exact Hc|exact Hv].
Defined.

(** ** The adapter's container *)

(** The invariant only reads the containers and the two container
    attributes of the adapter. *)
Lemma adapter_inv_grows CNAMES e e' :
  grows (containers (remote e)) (containers (remote e')) ->
  _container (storage e') = _container (storage e) ->
  _container_public_uri (storage e') = _container_public_uri (storage e) ->
  adapter_inv CNAMES e -> adapter_inv CNAMES e'.
Proof.
  intros Hg Hc Hu [Hp Hd]. split.
  - intros c Hb. rewrite Hc in Hb.
    destruct (Hp c Hb) as (C & HC & Hpub).
    destruct (Hg c C HC) as (C' & HC' & _ & Hpub').
    exists C'. auto.
  - intros u Hcache. rewrite Hu in Hcache.
    destruct (Hd u Hcache) as (c & C & Hb & HC & Hder).
    destruct (Hg c C HC) as (C' & HC' & Huri & _).
    exists c, C'. rewrite Hc, Huri. auto.
Qed.

(** Assigning the container: the containers only grow; when the
    assignment returns, the container is bound and public and no public
    address is cached; when it raises, the adapter is as before. *)
Lemma set_container_spec c e :
  grows (containers (remote e)) (containers (remote (snd (_set_container c e)))) /\
  match fst (_set_container c e) with
  | Ok _ =>
      storage (snd (_set_container c e)) =
        set_container (Some c) (set_container_public_uri None (storage e)) /\
      exists C, containers (remote (snd (_set_container c e))) !! c = Some C /\
                c_public C = true
  | Raise _ => storage (snd (_set_container c e)) = storage e
  end.
Proof.
  destruct e as [[cs fs cl] st h].
  unfold _set_container, cloudfiles.is_public, cloudfiles.make_public,
    cloudfiles.deref. run_monad.
  destruct (cs !! c) as [C|] eqn:Hc; cbn; [|split; [apply grows_refl|reflexivity]].
  destruct (c_public C) eqn:Hpub; cbn.
  - split; [apply grows_refl|]. split; [reflexivity|]. eauto.
  - destruct fs as [|[x|] fs]; cbn; rewrite ?Hc; cbn.
    + split; [|split; [reflexivity|]].
      * eapply grows_insert; eauto.
      * rewrite lookup_insert_eq. eauto.
    + split; [apply grows_refl|reflexivity].
    + split; [|split; [reflexivity|]].
      * eapply grows_insert; eauto.
      * rewrite lookup_insert_eq. eauto.
Qed.

Lemma set_container_keeps_inv CNAMES c :
  respects (keeps_inv CNAMES) (_set_container c).
Proof.
  intros e Hinv. destruct (set_container_spec c e) as [Hg Hr].
  destruct (fst (_set_container c e)) as [[]|x].
  - destruct Hr as (Hst & C & HC & Hpub). split.
    + intros c0 Hb. rewrite Hst in Hb. cbn in Hb. injection Hb as <-. eauto.
    + intros u Hu. rewrite Hst in Hu. discriminate.
  - eapply adapter_inv_grows; eauto; now rewrite Hr.
Qed.

Local Ltac keeps_inv_closure :=
  solve [ intros; unfold keeps_inv in *; tauto
        | intros; unfold keeps_inv; apply adapter_inv_grows; cbn;
          auto using grows_refl ].

Lemma get_connection_keeps_inv CNAMES :
  respects (keeps_inv CNAMES) _get_connection.
Proof. apply respects_get_connection; keeps_inv_closure. Qed.

Lemma cloud_get_container_keeps_inv CNAMES conn c :
  respects (keeps_inv CNAMES) (cloudfiles.get_container conn c).
Proof. apply respects_cloud_get_container; keeps_inv_closure. Qed.

(** Fetching the container keeps the invariant, and what it returns is
    bound. *)
Lemma get_container_spec CNAMES e r e' :
  adapter_inv CNAMES e ->
  _get_container e = (r, e') ->
  adapter_inv CNAMES e' /\
  forall c, r = Ok c -> _container (storage e') = Some c.
Proof.
  intros Hinv. unfold _get_container.
  rewrite (bind_run _ _ _ _ _ (get_storage_run e)).
  destruct (_container (storage e)) as [c0|] eqn:Hb.
  - intros [= <- <-]. split; [exact Hinv|]. now intros c [= <-].
  - intros H. apply bind_inv in H.
    destruct H as [(conn & e1 & H1 & H)|(x & H1 & ->)].
    2:{ pose proof (get_connection_keeps_inv CNAMES e Hinv) as Hk.
        rewrite H1 in Hk. split; [exact Hk|discriminate]. }
    pose proof (get_connection_keeps_inv CNAMES e Hinv) as Hinv1.
    rewrite H1 in Hinv1. cbn in Hinv1.
    apply bind_inv in H.
    destruct H as [(c & e2 & H2 & H)|(x & H2 & ->)].
    2:{ pose proof (cloud_get_container_keeps_inv CNAMES conn
                      (container_name (storage e)) e1 Hinv1) as Hk.
        rewrite H2 in Hk. split; [exact Hk|discriminate]. }
    pose proof (cloud_get_container_keeps_inv CNAMES conn
                  (container_name (storage e)) e1 Hinv1) as Hinv2.
    rewrite H2 in Hinv2. cbn in Hinv2.
    pose proof (set_container_keeps_inv CNAMES c e2 Hinv2) as Hinv3.
    pose proof (set_container_spec c e2) as [_ Hspec].
    apply bind_inv in H.
    destruct H as [([] & e3 & H3 & H)|(x & H3 & ->)].
    + injection H as <- <-. rewrite H3 in Hinv3, Hspec. cbn in *.
      split; [exact Hinv3|]. intros c1 [= <-].
      destruct Hspec as [-> _]. reflexivity.
    + rewrite H3 in Hinv3. split; [exact Hinv3|discriminate].
Qed.

Lemma get_container_keeps_inv CNAMES :
  respects (keeps_inv CNAMES) _get_container.
Proof.
  intros e Hinv. destruct (_get_container e) as [r e'] eqn:H.
  exact (proj1 (get_container_spec CNAMES e r e' Hinv H)).
Qed.

Lemma public_uri_inv c e r e' :
  cloudfiles.public_uri c e = (r, e') ->
  e' = e /\
  forall u, r = Ok u ->
    exists C, containers (remote e) !! c = Some C /\
              c_public C = true /\ u = c_uri C.
Proof.
  unfold cloudfiles.public_uri, cloudfiles.deref. run_monad.
  destruct (containers (remote e) !! c) as [C|]; cbn.
  - destruct (c_public C) eqn:Hpub; cbn; intros [= <- <-];
      (split; [reflexivity|]); intros u [= <-]. eauto.
  - intros [= <- <-]. split; [reflexivity|discriminate].
Qed.

Lemma derived_refl CNAMES u : derived CNAMES u u.
Proof. now exists 0%nat. Qed.

Lemma derived_step CNAMES u0 u alias :
  derived CNAMES u0 u -> CNAMES !! u = Some alias -> derived CNAMES u0 alias.
Proof.
  intros [k Hk] Ha. exists (S k). simpl. rewrite Hk.
  unfold alias_step. now rewrite Ha.
Qed.

(** Caching an address derived from the bound container's keeps the
    invariant. *)
Lemma cache_keeps_inv CNAMES e c C u :
  adapter_inv CNAMES e ->
  _container (storage e) = Some c ->
  containers (remote e) !! c = Some C ->
  derived CNAMES (c_uri C) u ->
  adapter_inv CNAMES
    (with_storage (set_container_public_uri (Some u) (storage e)) e).
Proof.
  intros [Hp Hd] Hb HC Hder. split.
  - exact Hp.
  - intros u' [= <-]. exists c, C. auto.
Qed.

(** Computing the public address keeps the invariant, and the address
    returned is the cached one. *)
Lemma get_container_url_spec CNAMES e r e' :
  adapter_inv CNAMES e ->
  _get_container_url CNAMES e = (r, e') ->
  adapter_inv CNAMES e' /\
  forall u, r = Ok u -> _container_public_uri (storage e') = Some u.
Proof.
  intros Hinv. unfold _get_container_url.
  rewrite (bind_run _ _ _ _ _ (get_storage_run e)).
  intros H. apply bind_inv in H.
  assert (Halias : forall e1 u c C,
            adapter_inv CNAMES e1 ->
            _container (storage e1) = Some c ->
            containers (remote e1) !! c = Some C ->
            derived CNAMES (c_uri C) u ->
            _container_public_uri (storage e1) = Some u ->
            match CNAMES !! u with
            | Some alias =>
                modify_storage (set_container_public_uri (Some alias)) ;;;
                ret alias
            | None => ret u
            end e1 = (r, e') ->
            adapter_inv CNAMES e' /\
            forall u', r = Ok u' -> _container_public_uri (storage e') = Some u').
  { intros e1 u c C Hinv1 Hb HC Hder Hcache.
    destruct (CNAMES !! u) as [alias|] eqn:Ha.
    - intros [= <- <-]. split.
      + eapply cache_keeps_inv; eauto using derived_step.
      + now intros u' [= <-].
    - intros [= <- <-]. split; [exact Hinv1|]. now intros u' [= <-]. }
  destruct (_container_public_uri (storage e)) as [u0|] eqn:Hcache.
  - destruct H as [(u & e1 & [= <- <-] & H)|(x & [=] & _)].
    destruct (proj2 Hinv u0 Hcache) as (c & C & Hb & HC & Hder).
    eapply Halias; eauto.
  - destruct H as [(u & e1 & H1 & H)|(x & H1 & ->)].
    + apply bind_inv in H1.
      destruct H1 as [(c & e2 & Hc & H1)|(x & _ & [=])].
      destruct (get_container_spec CNAMES e _ _ Hinv Hc) as [Hinv2 Hb].
      specialize (Hb c eq_refl).
      apply bind_inv in H1.
      destruct H1 as [(u1 & e3 & Hu & H1)|(x & _ & [=])].
      destruct (public_uri_inv c e2 _ _ Hu) as [-> HC].
      destruct (HC u1 eq_refl) as (C & HC' & _ & ->).
      injection H1 as <- <-.
      eapply (Halias _ (c_uri C) c C);
        [ eapply cache_keeps_inv; eauto using derived_refl
        | exact Hb | exact HC' | apply derived_refl | reflexivity | exact H ].
    + split; [|discriminate].
      apply bind_inv in H1.
      destruct H1 as [(c & e2 & Hc & H1)|(x' & Hc & _)].
      * destruct (get_container_spec CNAMES e _ _ Hinv Hc) as [Hinv2 _].
        apply bind_inv in H1.
        destruct H1 as [(u1 & e3 & Hu & [=])|(x' & Hu & _)].
        now destruct (public_uri_inv c e2 _ _ Hu) as [-> _].
      * exact (proj1 (get_container_spec CNAMES e _ _ Hinv Hc)).
Qed.

Lemma get_container_url_keeps_inv CNAMES :
  respects (keeps_inv CNAMES) (_get_container_url CNAMES).
Proof.
  intros e Hinv. destruct (_get_container_url CNAMES e) as [r e'] eqn:H.
  exact (proj1 (get_container_url_spec CNAMES e r e' Hinv H)).
Qed.

(** Every operation of a program keeps the invariant. *)
Lemma op_keeps_inv CNAMES guess_type (o : op) :
  respects (keeps_inv CNAMES) (op_sem CNAMES guess_type o).
Proof.
  pose proof (set_container_keeps_inv CNAMES) as Hset.
  pose proof (get_container_url_keeps_inv CNAMES) as Hurl.
  assert (Hfile : respects (keeps_inv CNAMES) _get_file).
  { apply respects_get_file_free; first [exact Hset | keeps_inv_closure]. }
  destruct o; unfold op_sem;
    try (apply respects_void; [keeps_inv_closure..|]).
  - apply respects_set_connection; keeps_inv_closure.
  - apply get_connection_keeps_inv.
  - apply Hset.
  - apply get_container_keeps_inv.
  - exact Hurl.
  - apply respects_modify. keeps_inv_closure.
  - apply respects_save; first [exact Hset | keeps_inv_closure].
  - apply respects_delete; first [exact Hset | keeps_inv_closure].
  - apply respects_exists; first [exact Hset | keeps_inv_closure].
  - apply respects_listdir; first [exact Hset | keeps_inv_closure].
  - apply respects_full_listdir; first [exact Hset | keeps_inv_closure].
  - apply respects_size; first [exact Hset | keeps_inv_closure].
  - apply respects_url; first [exact Hurl | exact Hset | keeps_inv_closure].
  - apply respects_get_size; first [exact Hset | keeps_inv_closure].
  - apply respects_set_size; keeps_inv_closure.
  - exact Hfile.
  - apply respects_set_file; keeps_inv_closure.
  - apply respects_read; first [exact Hfile | exact Hset | keeps_inv_closure].
  - apply respects_open; keeps_inv_closure.
  - apply respects_close; keeps_inv_closure.
  - apply respects_seek; keeps_inv_closure.
Qed.

Lemma exec_keeps_inv CNAMES guess_type ops : forall e,
  adapter_inv CNAMES e -> adapter_inv CNAMES (exec CNAMES guess_type ops e).
Proof.
  induction ops as [|o ops IH]; intros e Hinv; [exact Hinv|].
  simpl. apply IH. exact (op_keeps_inv CNAMES guess_type o e Hinv).
Qed.

Lemma reachable_inv CUMULUS_CONTAINER CNAMES guess_type e :
  reachable CUMULUS_CONTAINER CNAMES guess_type e -> adapter_inv CNAMES e.
Proof.
  intros (container & file_name & r & ops & ->).
  apply exec_keeps_inv. split; intros x H; discriminate.
Qed.

(** ** C8 *)

(** C8: in every state a program can reach from a new adapter, the bound
    container is publicly readable; an assignment of the container that
    returns has made it public, binds it and leaves no cached public
    address; a lazy fetch that returns has bound a public container; and
    every URL issued is [u ++ "/" ++ name] for an address [u] derived
    (through the alias table) from the address of the bound, publicly
    readable container. *)
Theorem container_public_before_url
    CUMULUS_CONTAINER CNAMES guess_type (e : Env) :
  reachable CUMULUS_CONTAINER CNAMES guess_type e ->
  public_bound e /\
  (forall c, fst (_set_container c e) = Ok tt ->
     _container (storage (snd (_set_container c e))) = Some c /\
     _container_public_uri (storage (snd (_set_container c e))) = None /\
     public_bound (snd (_set_container c e))) /\
  (forall c e', _get_container e = (Ok c, e') ->
     _container (storage e') = Some c /\ public_bound e') /\
  (forall n s e', url CNAMES n e = (Ok s, e') ->
     exists c C u,
       _container (storage e') = Some c /\
       containers (remote e') !! c = Some C /\
       c_public C = true /\
       derived CNAMES (c_uri C) u /\
       s = u ++ "/" ++ n).
Proof.
  intros Hreach. apply reachable_inv in Hreach.
  split; [exact (proj1 Hreach)|]. split; [|split].
  - intros c Hok.
    pose proof (set_container_keeps_inv CNAMES c e Hreach) as [Hp _].
    pose proof (set_container_spec c e) as [_ Hspec].
    rewrite Hok in Hspec. destruct Hspec as [Hst _].
    rewrite Hst. cbn. auto.
  - intros c e' Hrun.
    destruct (get_container_spec CNAMES e _ _ Hreach Hrun) as [[Hp _] Hb].
    auto.
  - intros n s e' Hrun. unfold url in Hrun. apply bind_inv in Hrun.
    destruct Hrun as [(u & e1 & Hu & [= <- <-])|(x & _ & [=])].
    destruct (get_container_url_spec CNAMES e _ _ Hreach Hu) as [[Hp Hd] Hcache].
    destruct (Hd u (Hcache u eq_refl)) as (c & C & Hb & HC & Hder).
    destruct (Hp c Hb) as (C' & HC' & Hpub).
    rewrite HC in HC'. injection HC' as <-.
    exists c, C, u. auto.
Qed.

Lemma container_public_before_url_witness :
  exists C,
    containers
      (remote (exec ∅ no_guess [GetContainerUrl]
                 (fresh "media" None "b/c.txt" example_remote)))
      !! "media" = Some C /\
    c_public C = true.
Proof.
  destruct (container_public_before_url "media" ∅ no_guess
              (exec ∅ no_guess [GetContainerUrl]
                 (fresh "media" None "b/c.txt" example_remote)))
    as [Hp _].
  - exists None, "b/c.txt", example_remote, [GetContainerUrl]. reflexivity.
  - apply Hp. vm_compute. reflexivity.
Defined.

(** * Further properties of the code *)

(** ** The order of the directories *)

Lemma str_compare_le_trans : forall a b c : string,
  String.compare a b <> Gt -> String.compare b c <> Gt ->
  String.compare a c <> Gt.
Proof.
  induction a as [|x a IH]; intros [|y b] [|z c]; simpl; try congruence.
  unfold Ascii.compare.
  destruct (N.compare_spec (N_of_ascii x) (N_of_ascii y)) as [Hxy|Hxy|Hxy];
    destruct (N.compare_spec (N_of_ascii y) (N_of_ascii z)) as [Hyz|Hyz|Hyz];
    destruct (N.compare_spec (N_of_ascii x) (N_of_ascii z)) as [Hxz|Hxz|Hxz];
    try congruence; try lia.
  apply IH.
Qed.

#[local] Instance str_le_trans : Transitive str_le.
Proof.
  intros a b c. unfold str_le, String.leb. intros Hab Hbc.
  pose proof (str_compare_le_trans a b c) as H.
  destruct (String.compare a b); try discriminate;
    destruct (String.compare b c); try discriminate;
    destruct (String.compare a c); try reflexivity;
    exfalso; apply H; congruence.
Qed.

(** X1: the directories [full_listdir] returns are in lexicographic order
    (each entry is below every later one) and hold no entry twice. *)
Theorem full_listdir_dirs_ordered path e dirs files e' :
  full_listdir path e = (Ok (dirs, files), e') ->
  StronglySorted str_le dirs /\ NoDup dirs.
Proof.
  unfold full_listdir. intros H.
  apply bind_inv in H. destruct H as [(c & e1 & _ & H)|(x & _ & [=])].
  apply bind_inv in H. destruct H as [(names & e2 & _ & H)|(x & _ & [=])].
  destruct (List.fold_left _ _ _) as [ds fs]. injection H as <- <- <-.
  split.
  - apply StronglySorted_merge_sort; apply _.
  - rewrite merge_sort_Permutation. apply NoDup_elements.
Qed.

Lemma full_listdir_dirs_ordered_witness :
  exists dirs files e',
    full_listdir "b" example_env = (Ok (dirs, files), e') /\
    StronglySorted str_le dirs /\ NoDup dirs.
Proof.
  destruct (full_listdir "b" example_env) as [[[dirs files]|x] e'] eqn:H;
    [|vm_compute in H; discriminate].
  exists dirs, files, e'. split; [reflexivity|].
  exact (full_listdir_dirs_ordered "b" example_env dirs files e' H).
Defined.

(** X2: the files [full_listdir] returns are exactly the non-empty
    remainders (listed name minus the normalized prefix) that have no [/]
    strictly between their first and last character, and they come in the
    order of the listing. *)
Theorem full_listdir_files_exact path e dirs files e' :
  full_listdir path e = (Ok (dirs, files), e') ->
  exists c e1 names,
    _get_container e = (Ok c, e1) /\
    cloudfiles.list_objects c (normalize path) e1 = (Ok names, e') /\
    (forall f, In f files <->
       exists name,
         In name names /\
         f = Py.slice name (Some (Py.len (normalize path))) None /\
         f <> "" /\ no_inner_slash f) /\
    sublist files
      (List.map (fun name => Py.slice name (Some (Py.len (normalize path))) None)
         names).
Proof.
  intros H. destruct (full_listdir_inv _ _ _ _ _ H)
    as (c & e1 & names & Hc & Hl & _ & ->).
  exists c, e1, names. repeat split; auto.
  - intros Hin. apply full_listdir_fold_files in Hin.
    destruct Hin as [[]|Hin]. exact Hin.
  - intros Hin. apply full_listdir_fold_files. now right.
  - destruct (full_listdir_fold_sublist (Py.len (normalize path)) names (∅, []))
      as (l & -> & Hl'). exact Hl'.
Qed.

Lemma full_listdir_files_exact_witness :
  exists dirs files e' c e1 names,
    full_listdir "" example_env = (Ok (dirs, files), e') /\
    _get_container example_env = (Ok c, e1) /\
    cloudfiles.list_objects c (normalize "") e1 = (Ok names, e') /\
    sublist files
      (List.map (fun name => Py.slice name (Some (Py.len (normalize ""))) None)
         names).
Proof.
  destruct (full_listdir "" example_env) as [[[dirs files]|x] e'] eqn:H;
    [|vm_compute in H; discriminate].
  destruct (full_listdir_files_exact "" example_env dirs files e' H)
    as (c & e1 & names & Hc & Hl & _ & Hsub).
  exists dirs, files, e', c, e1, names. auto.
Defined.

(** X3: the directories [full_listdir] returns are exactly the parts of
    the remainders that come before their first inner [/] (the first [/]
    strictly after the first and strictly before the last character), the
    slash not included. *)
Theorem full_listdir_dirs_exact path e dirs files e' :
  full_listdir path e = (Ok (dirs, files), e') ->
  exists c e1 names,
    _get_container e = (Ok c, e1) /\
    cloudfiles.list_objects c (normalize path) e1 = (Ok names, e') /\
    forall d, In d dirs <->
      exists name k,
        In name names /\
        first_inner_slash
          (Py.slice name (Some (Py.len (normalize path))) None) k /\
        d = Py.take k (Py.slice name (Some (Py.len (normalize path))) None).
Proof.
  intros H. destruct (full_listdir_inv _ _ _ _ _ H)
    as (c & e1 & names & Hc & Hl & -> & _).
  exists c, e1, names. repeat split; auto.
  - intros Hin. apply list_elem_of_In in Hin.
    rewrite merge_sort_Permutation in Hin. apply elem_of_elements in Hin.
    apply full_listdir_fold_dirs in Hin.
    destruct Hin as [Hin|Hin]; [|exact Hin].
    now apply not_elem_of_empty in Hin.
  - intros Hin. apply list_elem_of_In.
    rewrite merge_sort_Permutation. apply elem_of_elements.
    apply full_listdir_fold_dirs. now right.
Qed.

Lemma full_listdir_dirs_exact_witness :
  exists dirs files e' c e1 names,
    full_listdir "" example_env = (Ok (dirs, files), e') /\
    _get_container example_env = (Ok c, e1) /\
    cloudfiles.list_objects c (normalize "") e1 = (Ok names, e').
Proof.
  destruct (full_listdir "" example_env) as [[[dirs files]|x] e'] eqn:H;
    [|vm_compute in H; discriminate].
  destruct (full_listdir_dirs_exact "" example_env dirs files e' H)
    as (c & e1 & names & Hc & Hl & _).
  exists dirs, files, e', c, e1, names. auto.
Defined.

Lemma prefix_app_same a : forall b c,
  String.prefix (a ++ b) (a ++ c) = String.prefix b c.
Proof.
  induction a as [|x a IH]; intros b c; simpl; [reflexivity|].
  destruct (Ascii.ascii_dec x x); [apply IH|congruence].
Qed.

(** A string splits around any of its positions. *)
Lemma split_at_position : forall r k ch,
  Py.get k r = Some ch ->
  r = Py.take k r ++ String ch (Py.drop (S k) r).
Proof.
  induction r as [|a r IH]; intros k ch H; simpl in H; [discriminate|].
  destruct k as [|k].
  - injection H as <-. reflexivity.
  - change (String a r =
            String a (Py.take k r ++ String ch (Py.drop (S k) r))).
    f_equal. now apply IH.
Qed.

Lemma first_inner_slash_prefix r k :
  first_inner_slash r k -> String.prefix (Py.take k r ++ "/") r = true.
Proof.
  intros (_ & _ & Hg & _).
  rewrite (split_at_position r k SLASH Hg) at 2.
  rewrite prefix_app_same. generalize (Py.drop (S k) r). intros rest.
  simpl. destruct (Ascii.ascii_dec "/" SLASH) as [_|Hne];
    [now destruct rest|now destruct Hne].
Qed.

(** X4: [full_listdir] loses no listed object: every listed name whose
    remainder is not empty is returned as a file or lies under a returned
    directory [d] (its remainder starts with [d] and a slash). *)
Theorem full_listdir_covers_listing path e dirs files e' :
  full_listdir path e = (Ok (dirs, files), e') ->
  exists c e1 names,
    _get_container e = (Ok c, e1) /\
    cloudfiles.list_objects c (normalize path) e1 = (Ok names, e') /\
    forall name, In name names ->
      Py.slice name (Some (Py.len (normalize path))) None = "" \/
      In (Py.slice name (Some (Py.len (normalize path))) None) files \/
      exists d,
        In d dirs /\
        String.prefix (d ++ "/")
          (Py.slice name (Some (Py.len (normalize path))) None) = true.
Proof.
  intros H. destruct (full_listdir_inv _ _ _ _ _ H)
    as (c & e1 & names & Hc & Hl & -> & ->).
  exists c, e1, names. repeat split; auto.
  intros name Hin.
  destruct (full_listdir_step_cases (Py.len (normalize path)) (∅, []) name)
    as [(k & Hk & _)|[(Hp & Hne & _)|(He & _)]].
  - right. right. exists (Py.take k (Py.slice name (Some (Py.len (normalize path))) None)).
    split; [|now apply first_inner_slash_prefix].
    apply list_elem_of_In. rewrite merge_sort_Permutation.
    apply elem_of_elements. apply full_listdir_fold_dirs. right. eauto.
  - right. left. apply full_listdir_fold_files. right. eauto.
  - now left.
Qed.

Lemma full_listdir_covers_listing_witness :
  exists dirs files e' c e1 names,
    full_listdir "b" example_env = (Ok (dirs, files), e') /\
    _get_container example_env = (Ok c, e1) /\
    cloudfiles.list_objects c (normalize "b") e1 = (Ok names, e').
Proof.
  destruct (full_listdir "b" example_env) as [[[dirs files]|x] e'] eqn:H;
    [|vm_compute in H; discriminate].
  destruct (full_listdir_covers_listing "b" example_env dirs files e' H)
    as (c & e1 & names & Hc & Hl & _).
  exists dirs, files, e', c, e1, names. auto.
Defined.

(** ** Path normalization *)

(** X5: normalizing a path twice is normalizing it once, so [listdir] and
    [full_listdir] called with [p] and with the normalized [p] (for
    instance ["b"] and ["b/"]) are the same computation. *)
Theorem normalize_idempotent (path : string) :
  normalize (normalize path) = normalize path /\
  listdir (normalize path) = listdir path /\
  full_listdir (normalize path) = full_listdir path.
Proof.
  assert (H : normalize (normalize path) = normalize path).
  { unfold normalize.
    destruct (Py.truthy path && negb (Py.endswith path SLASH)) eqn:E.
    - rewrite PrefixFacts.endswith_app_slash.
      now rewrite andb_false_r.
    - now rewrite E. }
  split; [exact H|].
  unfold listdir, full_listdir. now rewrite H.
Qed.

(** ** Objects through the adapter *)

Lemma lookup_put_same n o : forall l,
  snd <$> List.find (fun p : string * CloudObject => String.eqb (fst p) n)
            (cloudfiles.put_assoc n o l) = Some o.
Proof.
  induction l as [|[n' o'] l IH]; simpl.
  - now rewrite String.eqb_refl.
  - destruct (String.eqb n' n) eqn:E; simpl.
    + now rewrite String.eqb_refl.
    + now rewrite E.
Qed.

Lemma lookup_put_other n m o : m <> n -> forall l,
  List.find (fun p : string * CloudObject => String.eqb (fst p) m)
    (cloudfiles.put_assoc n o l) =
  List.find (fun p : string * CloudObject => String.eqb (fst p) m) l.
Proof.
  intros Hne. assert (Hnm : String.eqb n m = false)
    by (apply String.eqb_neq; congruence).
  induction l as [|[n' o'] l IH]; simpl.
  - now rewrite Hnm.
  - destruct (String.eqb n' n) eqn:E; simpl.
    + apply String.eqb_eq in E. subst n'. now rewrite Hnm.
    + now rewrite IH.
Qed.

Lemma lookup_remove_same n : forall l,
  List.find (fun p : string * CloudObject => String.eqb (fst p) n)
    (List.filter (fun p => negb (String.eqb (fst p) n)) l) = None.
Proof.
  induction l as [|[n' o'] l IH]; simpl; [reflexivity|].
  destruct (String.eqb n' n) eqn:E; simpl; [exact IH|].
  now rewrite E.
Qed.

Lemma lookup_remove_other n m : m <> n -> forall l,
  List.find (fun p : string * CloudObject => String.eqb (fst p) m)
    (List.filter (fun p => negb (String.eqb (fst p) n)) l) =
  List.find (fun p : string * CloudObject => String.eqb (fst p) m) l.
Proof.
  intros Hne. induction l as [|[n' o'] l IH]; simpl; [reflexivity|].
  destruct (String.eqb n' n) eqn:E; simpl.
  - apply String.eqb_eq in E. subst n'.
    assert (Hnm : String.eqb n m = false) by (apply String.eqb_neq; congruence).
    now rewrite Hnm.
  - now rewrite IH.
Qed.

(** [exists] under a service that answers. *)
Lemma exists_serving e C n :
  serving e C ->
  exists e' C',
    exists_ n e =
      (Ok (match cloudfiles.lookup_object n C with
           | Some _ => true
           | None => false
           end), e') /\
    serving e' C' /\ c_objects C' = c_objects C /\ handle e' = handle e.
Proof.
  intros Hs.
  destruct (get_cloud_obj_serving e C n Hs) as (e' & C' & Hrun & Hs' & _ & Ho & Hh).
  exists e', C'. split; [|auto].
  unfold exists_, try_except, bind. rewrite Hrun.
  now destruct (cloudfiles.lookup_object n C).
Qed.

Lemma send_serving e C o data :
  faults (remote e) = [] ->
  containers (remote e) !! ref_container o = Some C ->
  cloudfiles.send o data e =
    (Ok tt,
     with_remote
       (set_containers
          (<[ref_container o :=
               cloudfiles.put_object (ref_name o)
                 (mkCloudObject data (ref_content_type o)) C]>
             (containers (remote e)))
          (log_call (CallSend (ref_container o) (ref_name o)) (remote e)))
       e).
Proof.
  intros Hf Hc. unfold cloudfiles.send.
  rewrite request_answered by exact Hf.
  unfold cloudfiles.deref. run_monad. now rewrite Hc.
Qed.

(** [_save] under a service that answers: the object is stored under the
    name, with the content's bytes, and the other objects stay. *)
Lemma save_serving guess_type e C n content :
  serving e C ->
  exists e' C' ct,
    _save guess_type n content e = (Ok n, e') /\
    serving e' C' /\
    cloudfiles.lookup_object n C' =
      Some (mkCloudObject (content_data content) ct) /\
    (forall m, m <> n ->
       cloudfiles.lookup_object m C' = cloudfiles.lookup_object m C) /\
    handle e' = handle e.
Proof.
  intros Hs.
  destruct (get_container_serving e C Hs)
    as (e1 & C1 & Hrun & [Hf1 Hc1] & Hb & Hobj & _ & Hh).
  unfold target in Hc1. rewrite Hb in Hc1.
  unfold _save. rewrite (bind_run _ _ _ _ _ Hrun).
  eexists _, _, _.
  rewrite (bind_run _ _ _ _ _
             (send_serving e1 C1 (mkCloudRef (target e) n _ _) _ Hf1 Hc1)).
  split; [reflexivity|]. split; [|split; [|split]].
  - split; [exact Hf1|]. unfold target. cbn. rewrite Hb.
    apply lookup_insert_eq.
  - unfold cloudfiles.lookup_object, cloudfiles.put_object. cbn.
    apply lookup_put_same.
  - intros m Hm. unfold cloudfiles.lookup_object, cloudfiles.put_object. cbn.
    rewrite lookup_put_other by exact Hm. now rewrite Hobj.
  - exact Hh.
Qed.

(** Opening a handle on a name and reading, under a service that answers:
    the bytes of the object at the cursor of the new handle, or
    [NoSuchObject] when there is no such object. *)
Lemma open_read_serving e C n num_bytes :
  serving e C ->
  exists e',
    (_open n ;;; read num_bytes) e =
      (match cloudfiles.lookup_object n C with
       | Some obj =>
           Ok (cloudfiles.read_range (o_data obj) (or_minus_one num_bytes) 0)
       | None => Raise NoSuchObject
       end, e') /\
    (cloudfiles.lookup_object n C = None ->
       handle e' = new_file n).
Proof.
  intros [Hf Hc].
  set (e0 := with_handle (new_file n) e).
  assert (Hopen : _open n e = (Ok tt, e0)) by reflexivity.
  rewrite (bind_run _ _ _ _ _ Hopen).
  destruct (cloudfiles.lookup_object n C) as [obj|] eqn:Ho.
  - assert (Hr : reads e0 (o_data obj)).
    { split; [exact Hf|]. exists C, obj. cbn. auto. }
    destruct (read_reads e0 (o_data obj) num_bytes Hr) as (e' & Hrun & _).
    exists e'. split; [exact Hrun|discriminate].
  - assert (Hs0 : serving e0 C) by (split; [exact Hf|exact Hc]).
    destruct (get_cloud_obj_serving e0 C n Hs0)
      as (e1 & C1 & Hrun & _ & _ & _ & Hh).
    rewrite Ho in Hrun.
    exists e1. split; [|intros _; exact Hh].
    assert (Hgf : _get_file e0 = (Raise NoSuchObject, e1)).
    { unfold _get_file. rewrite (bind_run _ _ _ _ _ (get_handle_run e0)).
      change (_file (handle e0)) with (@None CloudRef).
      change (name (handle e0)) with n.
      exact (bind_raise _ _ _ _ _ Hrun). }
    unfold read. exact (bind_raise _ _ _ _ _ Hgf).
Qed.

(** X6: saving and reading back.  Under a service that answers, [_save]
    returns the name; afterwards [exists] is true for that name, and a
    handle newly opened on it reads back exactly the bytes that were
    saved. *)
Theorem save_then_read guess_type e C n content :
  serving e C ->
  exists e',
    _save guess_type n content e = (Ok n, e') /\
    fst (exists_ n e') = Ok true /\
    fst ((_open n ;;; read None) e') = Ok (content_data content).
Proof.
  intros Hs.
  destruct (save_serving guess_type e C n content Hs)
    as (e' & C' & ct & Hrun & Hs' & Ho & _).
  exists e'. split; [exact Hrun|]. split.
  - destruct (exists_serving e' C' n Hs') as (e2 & C2 & Hex & _).
    now rewrite Hex, Ho.
  - destruct (open_read_serving e' C' n None Hs') as (e2 & Hrd & _).
    now rewrite Hrd, Ho.
Qed.

Lemma save_then_read_witness :
  exists e',
    _save no_guess "new.txt"
      (mkContent (list_byte_of_string "fresh") None 5 None None) example_env
      = (Ok "new.txt", e') /\
    fst ((_open "new.txt" ;;; read None) e') = Ok (list_byte_of_string "fresh").
Proof.
  destruct (save_then_read no_guess example_env example_container "new.txt"
              (mkContent (list_byte_of_string "fresh") None 5 None None)
              example_serving) as (e' & H1 & _ & H2).
  exists e'. split; assumption.
Defined.

(** X7: saving one object leaves the others alone.  Under a service that
    answers, after [_save] of [n], [exists] and a read through a newly
    opened handle give for every other name what they gave before. *)
Theorem save_keeps_other_objects guess_type e C n content m :
  serving e C ->
  m <> n ->
  exists e',
    _save guess_type n content e = (Ok n, e') /\
    fst (exists_ m e') = fst (exists_ m e) /\
    fst ((_open m ;;; read None) e') = fst ((_open m ;;; read None) e).
Proof.
  intros Hs Hm.
  destruct (save_serving guess_type e C n content Hs)
    as (e' & C' & ct & Hrun & Hs' & _ & Hother & _).
  exists e'. split; [exact Hrun|]. split.
  - destruct (exists_serving e' C' m Hs') as (e2 & C2 & Hex & _).
    destruct (exists_serving e C m Hs) as (e3 & C3 & Hex0 & _).
    now rewrite Hex, Hex0, (Hother m Hm).
  - destruct (open_read_serving e' C' m None Hs') as (e2 & Hrd & _).
    destruct (open_read_serving e C m None Hs) as (e3 & Hrd0 & _).
    now rewrite Hrd, Hrd0, (Hother m Hm).
Qed.

Lemma save_keeps_other_objects_witness :
  exists e',
    _save no_guess "new.txt"
      (mkContent (list_byte_of_string "fresh") None 5 None None) example_env
      = (Ok "new.txt", e') /\
    fst (exists_ "a.txt" e') = fst (exists_ "a.txt" example_env).
Proof.
  destruct (save_keeps_other_objects no_guess example_env example_container
              "new.txt"
              (mkContent (list_byte_of_string "fresh") None 5 None None)
              "a.txt" example_serving) as (e' & H1 & H2 & _).
  - discriminate.
  - exists e'. split; assumption.
Defined.

(** What the remote delete does to the container, under a service that
    answers. *)
Lemma delete_serving_exact e C n :
  serving e C ->
  exists e' C',
    delete n e = (Ok tt, e') /\
    serving e' C' /\
    cloudfiles.lookup_object n C' = None /\
    (forall m, m <> n ->
       cloudfiles.lookup_object m C' = cloudfiles.lookup_object m C).
Proof.
  intros Hs.
  destruct (get_container_serving e C Hs)
    as (e1 & C1 & Hrun & [Hf1 Hc1] & Hb & Hobj & _).
  unfold target in Hc1. rewrite Hb in Hc1.
  assert (Hlook : forall m, cloudfiles.lookup_object m C1 =
                            cloudfiles.lookup_object m C).
  { intros m. unfold cloudfiles.lookup_object. now rewrite Hobj. }
  unfold delete, try_except. rewrite (bind_run _ _ _ _ _ Hrun).
  unfold cloudfiles.delete_object.
  rewrite request_answered by exact Hf1.
  unfold cloudfiles.deref. run_monad. rewrite Hc1. cbn.
  destruct (cloudfiles.lookup_object n C1) as [o|] eqn:Ho; cbn.
  - eexists _, _. split; [reflexivity|]. split; [|split].
    + split; [exact Hf1|]. unfold target. cbn. rewrite Hb.
      apply lookup_insert_eq.
    + unfold cloudfiles.lookup_object, cloudfiles.remove_object. cbn.
      now rewrite lookup_remove_same.
    + intros m Hm. rewrite <- Hlook.
      unfold cloudfiles.lookup_object, cloudfiles.remove_object. cbn.
      now rewrite lookup_remove_other.
  - eexists _, C1. split; [reflexivity|]. split; [|split].
    + split; [exact Hf1|]. unfold target. cbn. now rewrite Hb.
    + exact Ho.
    + intros m _. apply Hlook.
Qed.

(** X8: deleting and probing.  Under a service that answers, [delete]
    returns (whether or not the object was there); afterwards [exists] is
    false for that name and answers for every other name as before. *)
Theorem delete_then_absent e C n :
  serving e C ->
  exists e',
    delete n e = (Ok tt, e') /\
    fst (exists_ n e') = Ok false /\
    forall m, m <> n -> fst (exists_ m e') = fst (exists_ m e).
Proof.
  intros Hs.
  destruct (delete_serving_exact e C n Hs) as (e' & C' & Hrun & Hs' & Hn & Hother).
  exists e'. split; [exact Hrun|]. split.
  - destruct (exists_serving e' C' n Hs') as (e2 & C2 & Hex & _).
    now rewrite Hex, Hn.
  - intros m Hm.
    destruct (exists_serving e' C' m Hs') as (e2 & C2 & Hex & _).
    destruct (exists_serving e C m Hs) as (e3 & C3 & Hex0 & _).
    now rewrite Hex, Hex0, (Hother m Hm).
Qed.

Lemma delete_then_absent_witness :
  exists e',
    delete "a.txt" example_env = (Ok tt, e') /\
    fst (exists_ "a.txt" e') = Ok false.
Proof.
  destruct (delete_then_absent example_env example_container "a.txt"
              example_serving) as (e' & H1 & H2 & _).
  exists e'. split; assumption.
Defined.

(** ** The cursor *)

Lemma seek_reads e data p : reads e data -> reads (snd (seek p e)) data.
Proof. intros (Hf & C & obj & H). split; [exact Hf|]. exists C, obj. exact H. Qed.

(** X9: [seek(p)] then [read(n)] with [n] positive returns the [n] bytes
    of the object that start at offset [p] (fewer at the end of the
    object), and leaves the cursor just after them. *)
Theorem seek_then_read e data p n :
  reads e data ->
  0 <= p -> 0 < n ->
  exists e',
    (seek p ;;; read (Some n)) e =
      (Ok (List.firstn (Z.to_nat n) (List.skipn (Z.to_nat p) data)), e') /\
    _pos (handle e') =
      p + Z.of_nat (List.length
            (List.firstn (Z.to_nat n) (List.skipn (Z.to_nat p) data))).
Proof.
  intros Hr Hp Hn.
  assert (Hseek : seek p e = (Ok tt, snd (seek p e))) by reflexivity.
  destruct (read_reads _ data (Some n) (seek_reads e data p Hr))
    as (e' & Hrun & _ & Hpos & _).
  exists e'. rewrite (bind_run _ _ _ _ _ Hseek).
  assert (Hrange : cloudfiles.read_range data (or_minus_one (Some n))
                     (_pos (handle (snd (seek p e)))) =
                   List.firstn (Z.to_nat n) (List.skipn (Z.to_nat p) data)).
  { unfold cloudfiles.read_range, or_minus_one. cbn.
    replace (n =? 0) with false by lia. now replace (0 <? n) with true by lia. }
  rewrite Hrange in Hrun, Hpos. split; [exact Hrun|exact Hpos].
Qed.

Lemma seek_then_read_witness :
  fst ((seek 6 ;;; read (Some 3)) example_env) = Ok (list_byte_of_string "wor").
Proof.
  destruct (seek_then_read example_env _ 6 3 example_reads) as (e' & H & _);
    [lia|lia|].
  rewrite H. reflexivity.
Defined.

(** X10: a read at or past the end of the object returns no bytes and
    leaves the cursor where it was, whatever count is asked for. *)
Theorem read_at_end e data num_bytes :
  reads e data ->
  Z.of_nat (List.length data) <= _pos (handle e) ->
  exists e',
    read num_bytes e = (Ok [], e') /\
    _pos (handle e') = _pos (handle e).
Proof.
  intros Hr Hend.
  destruct (read_reads e data num_bytes Hr) as (e' & Hrun & _ & Hpos & _).
  assert (Hrange : cloudfiles.read_range data (or_minus_one num_bytes)
                     (_pos (handle e)) = []).
  { unfold cloudfiles.read_range.
    rewrite List.skipn_all2 by lia.
    destruct (0 <? or_minus_one num_bytes); [apply List.firstn_nil|reflexivity]. }
  rewrite Hrange in Hrun, Hpos. exists e'. split; [exact Hrun|].
  rewrite Hpos. simpl. lia.
Qed.

Lemma read_at_end_witness :
  fst ((seek 11 ;;; read (Some 4)) example_env) = Ok [].
Proof.
  destruct (read_at_end (snd (seek 11 example_env)) _ (Some 4)
              (seek_reads _ _ 11 example_reads)) as (e' & H & _).
  - vm_compute. discriminate.
  - assert (Hseek : seek 11 example_env = (Ok tt, snd (seek 11 example_env)))
      by reflexivity.
    now rewrite (bind_run _ _ _ _ _ Hseek), H.
Defined.

(** X11: from any cursor [p] and for any positive count [n], [read(n)]
    followed by [read()] returns two pieces whose concatenation is the
    object from offset [p] on, and the cursor ends up at [p] plus the
    total length returned. *)
Theorem read_chunk_then_rest e data n :
  reads e data ->
  0 <= _pos (handle e) -> 0 < n ->
  exists d1 e1 d2 e2,
    read (Some n) e = (Ok d1, e1) /\
    read None e1 = (Ok d2, e2) /\
    (d1 ++ d2)%list = List.skipn (Z.to_nat (_pos (handle e))) data /\
    _pos (handle e2) = _pos (handle e) + Z.of_nat (List.length (d1 ++ d2)%list).
Proof.
  intros Hr Hp Hn.
  destruct (read_reads e data (Some n) Hr) as (e1 & Hrun1 & Hr1 & Hp1 & _).
  destruct (read_reads e1 data None Hr1) as (e2 & Hrun2 & _ & Hp2 & _).
  do 4 eexists. split; [exact Hrun1|]. split; [exact Hrun2|].
  set (p := Z.to_nat (_pos (handle e))).
  assert (H1 : cloudfiles.read_range data (or_minus_one (Some n)) (_pos (handle e))
               = List.firstn (Z.to_nat n) (List.skipn p data)).
  { unfold cloudfiles.read_range, or_minus_one.
    replace (n =? 0) with false by lia. now replace (0 <? n) with true by lia. }
  rewrite H1 in *.
  assert (H2 : cloudfiles.read_range data (or_minus_one None) (_pos (handle e1))
               = List.skipn (List.length (List.firstn (Z.to_nat n) (List.skipn p data)))
                   (List.skipn p data)).
  { unfold cloudfiles.read_range. cbn. rewrite Hp1, List.skipn_skipn.
    f_equal. unfold p. lia. }
  rewrite H2 in *. split.
  - apply firstn_then_rest.
  - rewrite Hp2, Hp1, List.length_app. lia.
Qed.

Lemma read_chunk_then_rest_witness :
  exists d1 e1 d2 e2,
    read (Some 7) example_env = (Ok d1, e1) /\
    read None e1 = (Ok d2, e2) /\
    (d1 ++ d2)%list = list_byte_of_string "hello world".
Proof.
  destruct (read_chunk_then_rest example_env _ 7 example_reads)
    as (d1 & e1 & d2 & e2 & H1 & H2 & H3 & _); [reflexivity|lia|].
  exists d1, e1, d2, e2. auto.
Defined.

Local Ltac same_pos_closure :=
  solve [intros; unfold same_pos in *; cbn; congruence].

Lemma get_file_same_pos : respects same_pos _get_file.
Proof.
  apply respects_get_file_free; try same_pos_closure.
  intros c. apply respects_set_container_free; same_pos_closure.
Qed.

Lemma cloud_read_same_pos o size offset :
  respects same_pos (cloudfiles.read o size offset).
Proof. apply respects_cloud_read; same_pos_closure. Qed.

(** X12: a read that raises does not move the cursor, whatever made it
    raise (the fetch of the object or the read of its bytes). *)
Theorem failed_read_keeps_cursor num_bytes e x e' :
  read num_bytes e = (Raise x, e') ->
  _pos (handle e') = _pos (handle e).
Proof.
  unfold read. intros H.
  apply bind_inv in H. destruct H as [(f & e1 & Hf & H)|(x' & Hf & _)].
  - pose proof (get_file_same_pos e) as H1. rewrite Hf in H1.
    rewrite (bind_run _ _ _ _ _ (get_handle_run e1)) in H.
    apply bind_inv in H. destruct H as [(d & e2 & _ & [=])|(x' & Hr & _)].
    pose proof (cloud_read_same_pos f (or_minus_one num_bytes)
                  (_pos (handle e1)) e1) as H2.
    rewrite Hr in H2. unfold same_pos in *. cbn in *. congruence.
  - pose proof (get_file_same_pos e) as H1. now rewrite Hf in H1.
Qed.

Lemma failed_read_keeps_cursor_witness :
  _pos (handle (snd ((seek 4 ;;; read None) missing_env))) = 4.
Proof.
  destruct ((seek 4 ;;; read None) missing_env) as [[d|x] e'] eqn:H;
    [vm_compute in H; discriminate|].
  assert (Hseek : seek 4 missing_env = (Ok tt, snd (seek 4 missing_env)))
    by reflexivity.
  rewrite (bind_run _ _ _ _ _ Hseek) in H. cbn [snd].
  now rewrite (failed_read_keeps_cursor None _ x e' H).
Defined.

(** X13: opening a handle asks the service nothing, so it succeeds on a
    name that has no object; the first read then raises [NoSuchObject],
    and leaves the handle unbound (closed) with its cursor at 0. *)
Theorem open_missing_then_read e C n num_bytes :
  serving e C ->
  cloudfiles.lookup_object n C = None ->
  _open n e = (Ok tt, with_handle (new_file n) e) /\
  exists e',
    (_open n ;;; read num_bytes) e = (Raise NoSuchObject, e') /\
    closed (handle e') = true /\ _pos (handle e') = 0.
Proof.
  intros Hs Ho. split; [reflexivity|].
  destruct (open_read_serving e C n num_bytes Hs) as (e' & Hrun & Hh).
  rewrite Ho in Hrun. exists e'. split; [exact Hrun|].
  rewrite (Hh Ho). split; reflexivity.
Qed.

Lemma open_missing_then_read_witness :
  fst ((_open "z.txt" ;;; read None) example_env) = Raise NoSuchObject.
Proof.
  destruct (open_missing_then_read example_env example_container "z.txt" None
              example_serving eq_refl) as (_ & e' & H & _).
  now rewrite H.
Defined.

(** X14: on a handle that is not yet bound and holds no size, [size] is
    the number of bytes of the object of that name, the number of bytes a
    [read()] from cursor 0 returns; the value is then held by the handle. *)
Theorem size_is_length e data :
  reads e data ->
  _file (handle e) = None ->
  _size (handle e) = None ->
  exists e',
    _get_size e = (Ok (Z.of_nat (List.length data)), e') /\
    _size (handle e') = Some (Z.of_nat (List.length data)).
Proof.
  intros (Hf & C & obj & Hc & Ho & Hd) Hfile Hsize.
  rewrite Hfile in Hc, Ho.
  rewrite (get_size_fetches e Hsize).
  set (e0 := with_remote (log_call (CallSize (name (handle e))) (remote e)) e).
  assert (Hs0 : serving e0 C) by (split; [exact Hf|exact Hc]).
  destruct (get_cloud_obj_serving e0 C (name (handle e)) Hs0)
    as (e1 & C1 & Hrun & _).
  rewrite Ho in Hrun. rewrite Hrun. cbn. rewrite Hd.
  eexists. split; reflexivity.
Qed.

Lemma size_is_length_witness :
  fst (_get_size example_env) = Ok 11.
Proof.
  destruct (size_is_length example_env _ example_reads eq_refl eq_refl)
    as (e' & H & _).
  now rewrite H.
Defined.

(** ** Public addresses *)

Lemma public_uri_serving c e C :
  containers (remote e) !! c = Some C ->
  c_public C = true ->
  cloudfiles.public_uri c e = (Ok (c_uri C), e).
Proof.
  intros Hc Hp. unfold cloudfiles.public_uri, cloudfiles.deref. run_monad.
  rewrite Hc. cbn. now rewrite Hp.
Qed.

(** X15: the first URL of an adapter.  When the service answers, the bound
    container (if any) is public and no address is cached yet, [url(name)]
    is the public address of the adapter's container, rewritten once
    through the alias table, then [/] and the name. *)
Theorem url_from_public_address CNAMES e C n :
  serving e C ->
  public_bound e ->
  _container_public_uri (storage e) = None ->
  fst (url CNAMES n e) = Ok (alias_step CNAMES (c_uri C) ++ "/" ++ n).
Proof.
  intros Hs Hpub Hcache.
  assert (Hinv : adapter_inv CNAMES e).
  { split; [exact Hpub|]. intros u Hu. congruence. }
  destruct (get_container_serving e C Hs)
    as (e1 & C1 & Hrun & [Hf1 Hc1] & Hb & _ & Huri & _).
  unfold target in Hc1. rewrite Hb in Hc1.
  destruct (get_container_spec CNAMES e _ _ Hinv Hrun) as [[Hpub1 _] _].
  destruct (Hpub1 _ Hb) as (C' & HC' & Hp').
  rewrite Hc1 in HC'. injection HC' as <-.
  set (e2 := with_storage
               (set_container_public_uri (Some (c_uri C1)) (storage e1)) e1).
  assert (Hfetch :
    (c <- _get_container ;;
     u <- cloudfiles.public_uri c ;;
     modify_storage (set_container_public_uri (Some u)) ;;;
     ret u) e = (Ok (c_uri C1), e2)).
  { rewrite (bind_run _ _ _ _ _ Hrun).
    now rewrite (bind_run _ _ _ _ _ (public_uri_serving _ e1 C1 Hc1 Hp')). }
  unfold url, _get_container_url.
  unfold bind at 1.
  rewrite (bind_run _ _ _ _ _ (get_storage_run e)), Hcache.
  rewrite (bind_run _ _ _ _ _ Hfetch).
  unfold alias_step. rewrite <- Huri.
  now destruct (CNAMES !! c_uri C1).
Qed.

Lemma url_from_public_address_witness :
  fst (url ∅ "a.txt" example_env) = Ok "http://c0.cdn.example/a.txt".
Proof.
  rewrite (url_from_public_address ∅ example_env example_container "a.txt"
             example_serving).
  - reflexivity.
  - intros c H. discriminate.
  - reflexivity.
Defined.

(** X16: once an address is cached, computing the container URL asks the
    service nothing and touches neither the bound container nor the
    handle: it rewrites the cached address once more through the alias
    table, caches and returns the result; the address is returned
    unchanged when the table has no entry for it. *)
Theorem container_url_cached CNAMES e u :
  _container_public_uri (storage e) = Some u ->
  fst (_get_container_url CNAMES e) = Ok (alias_step CNAMES u) /\
  remote (snd (_get_container_url CNAMES e)) = remote e /\
  handle (snd (_get_container_url CNAMES e)) = handle e /\
  _container (storage (snd (_get_container_url CNAMES e))) =
    _container (storage e) /\
  _container_public_uri (storage (snd (_get_container_url CNAMES e))) =
    Some (alias_step CNAMES u) /\
  (CNAMES !! u = None -> fst (_get_container_url CNAMES e) = Ok u).
Proof.
  intros Hcache. unfold _get_container_url.
  rewrite (bind_run _ _ _ _ _ (get_storage_run e)), Hcache.
  unfold alias_step. run_monad.
  destruct (CNAMES !! u) as [alias|]; cbn; repeat split; auto; discriminate.
Qed.

Lemma container_url_cached_witness :
  fst (_get_container_url {[ "http://c0.cdn.example" := "http://media.example" ]}
         (with_storage
            (mkStorage "media" None (Some "media") (Some "http://c0.cdn.example"))
            example_env))
  = Ok "http://media.example".
Proof.
  destruct (container_url_cached
              {[ "http://c0.cdn.example" := "http://media.example" ]}
              (with_storage
                 (mkStorage "media" None (Some "media")
                    (Some "http://c0.cdn.example"))
                 example_env)
              "http://c0.cdn.example" eq_refl) as (H & _).
  rewrite H. vm_compute. reflexivity.
Defined.

Lemma set_container_same_handle c : respects same_handle (_set_container c).
Proof.
  apply respects_set_container_free;
    solve [intros; unfold same_handle in *; cbn; congruence].
Qed.

(** X17: a container assignment that raises (the container object is
    gone, or making it public failed) leaves the adapter as it was: the
    container bound before stays bound, the cached address stays, and the
    handle is untouched. *)
Theorem failed_assignment_keeps_adapter c e x :
  fst (_set_container c e) = Raise x ->
  storage (snd (_set_container c e)) = storage e /\
  handle (snd (_set_container c e)) = handle e.
Proof.
  intros H. split.
  - pose proof (set_container_spec c e) as [_ Hspec]. now rewrite H in Hspec.
  - exact (set_container_same_handle c e).
Qed.

Lemma failed_assignment_keeps_adapter_witness :
  storage (snd (_set_container "gone" example_env)) = storage example_env.
Proof.
  destruct (failed_assignment_keeps_adapter "gone" example_env NoSuchContainer)
    as [H _]; [reflexivity|exact H].
Defined.

(** ** The adapter's [size] *)

(** X18: under a service that answers, the adapter's [size(name)] is the
    number of bytes of the object of that name, and raises [NoSuchObject]
    when there is no such object (where [exists] returns false). *)
Theorem size_of_object e C n :
  serving e C ->
  fst (size n e) =
    match cloudfiles.lookup_object n C with
    | Some obj => Ok (Z.of_nat (List.length (o_data obj)))
    | None => Raise NoSuchObject
    end /\
  (cloudfiles.lookup_object n C = None -> fst (exists_ n e) = Ok false).
Proof.
  intros Hs. split.
  - set (e0 := with_remote (log_call (CallSize n) (remote e)) e).
    assert (Hs0 : serving e0 C) by exact Hs.
    destruct (get_cloud_obj_serving e0 C n Hs0) as (e1 & C1 & Hrun & _).
    assert (Hlog : modify_remote (log_call (CallSize n)) e = (Ok tt, e0))
      by reflexivity.
    unfold size. rewrite (bind_run _ _ _ _ _ Hlog).
    unfold bind. rewrite Hrun.
    now destruct (cloudfiles.lookup_object n C).
  - intros Ho. destruct (exists_serving e C n Hs) as (e1 & C1 & Hex & _).
    now rewrite Hex, Ho.
Qed.

Lemma size_of_object_witness :
  fst (size "b/c.txt" example_env) = Ok 11 /\
  fst (size "z.txt" example_env) = Raise NoSuchObject.
Proof.
  split.
  - now rewrite (proj1 (size_of_object example_env example_container "b/c.txt"
                          example_serving)).
  - now rewrite (proj1 (size_of_object example_env example_container "z.txt"
                          example_serving)).
Defined.

(** ** Requests of a read *)

(** X19: a read on a handle that is already bound sends one request to the
    service, the ranged read of the bound object at the cursor with the
    count [num_bytes or -1]; the object is not fetched again. *)
Theorem bound_read_sends_one_request e data f num_bytes :
  reads e data ->
  _file (handle e) = Some f ->
  calls (remote (snd (read num_bytes e))) =
    CallRead (ref_container f) (ref_name f) (or_minus_one num_bytes)
      (_pos (handle e)) :: calls (remote e).
Proof.
  intros (Hf & C & obj & Hc & Ho & _) Hfile.
  rewrite Hfile in Hc, Ho.
  assert (Hget : _get_file e = (Ok f, e)).
  { unfold _get_file. rewrite (bind_run _ _ _ _ _ (get_handle_run e)).
    now rewrite Hfile. }
  unfold read. rewrite (bind_run _ _ _ _ _ Hget).
  rewrite (bind_run _ _ _ _ _ (get_handle_run e)).
  rewrite (bind_run _ _ _ _ _ (cloud_read_serving e C f _ _ obj Hf Hc Ho)).
  reflexivity.
Qed.

Lemma bound_read_sends_one_request_witness :
  exists f,
    _file (handle (snd (read (Some 5) example_env))) = Some f /\
    calls (remote (snd (read None (snd (read (Some 5) example_env))))) =
      CallRead (ref_container f) (ref_name f) (-1) 5
        :: calls (remote (snd (read (Some 5) example_env))).
Proof.
  destruct (read_reads example_env _ (Some 5) example_reads)
    as (e1 & Hrun & Hr1 & _ & _).
  rewrite Hrun. cbn [snd].
  destruct (_file (handle e1)) as [f|] eqn:Hfile.
  - exists f. split; [reflexivity|].
    rewrite (bound_read_sends_one_request e1 _ f None Hr1 Hfile).
    assert (Hp : _pos (handle e1) = 5).
    { replace e1 with (snd (read (Some 5) example_env)) by now rewrite Hrun.
      reflexivity. }
    now rewrite Hp.
  - exfalso. assert (He : e1 = snd (read (Some 5) example_env))
      by now rewrite Hrun.
    rewrite He in Hfile. vm_compute in Hfile. discriminate.
Defined.
